(** * AutoBackup: the debounce-and-retention engine of [AutoBackup.py]

    A shallow embedding of [BackupHandler] (the change tracker, the
    debounce test, the backup cycle and the retention sweep) and of the
    polling loop of [start], followed by the properties of the
    specification.

    Conventions of the embedding.
    - Timestamps are readings of [time.time()], counted in ticks of a fixed
      resolution and held in [Z]; [cooldown] is in the same unit.  The
      reading is an explicit argument of every operation that consults the
      clock.
    - The backup directory is the list of its direct children in the order
      [os.listdir] reports them.
    - Exceptions are values of [error]; a function that can raise returns
      the state it leaves behind together with [Some e] when it raised.
    - What the operating system decides (whether a write or a deletion
      fails, the modification time a new artifact gets, the formatted wall
      clock) is an explicit input. *)

From Stdlib Require Import ZArith List String Ascii Bool Lia Permutation Sorted.
From Stdlib Require Import DecimalString.
Import ListNotations.

Open Scope string_scope.
Open Scope list_scope.
Open Scope Z_scope.

Notation "s +++ t" := (String.append s t) (at level 60, right associativity).

(** ** Python primitives *)

(** [str.endswith] *)
Definition endswith (s suffix : string) : bool :=
  let n := String.length s in
  let m := String.length suffix in
  (m <=? n)%nat && String.eqb (substring (n - m) m s) suffix.

(** [os.path.basename] (POSIX): the text after the last slash. *)
Fixpoint basename_from (acc p : string) : string :=
  match p with
  | EmptyString => acc
  | String c rest =>
      if Ascii.eqb c "/" then basename_from EmptyString rest
      else basename_from (acc +++ String c EmptyString) rest
  end.

Definition basename (p : string) : string := basename_from EmptyString p.

(** [os.path.join] (POSIX) of two components. *)
Definition join (a b : string) : string :=
  if String.prefix "/" b then b
  else if String.eqb a "" || endswith a "/" then a +++ b
  else a +++ "/" +++ b.

(** [sorted(l, key=key, reverse=True)]: Python's sort is stable, and with
    [reverse=True] elements with equal keys keep their original order.
    Insertion from the right puts [x] in front of the first element whose
    key is not greater than its own. *)
Fixpoint insert_desc {A : Type} (key : A -> Z) (x : A) (l : list A) : list A :=
  match l with
  | [] => [x]
  | y :: l' => if key x <? key y then y :: insert_desc key x l' else x :: l
  end.

Fixpoint sorted_desc {A : Type} (key : A -> Z) (l : list A) : list A :=
  match l with
  | [] => []
  | x :: l' => insert_desc key x (sorted_desc key l')
  end.

(** ** Exceptions *)

Inductive error : Type :=
| FileExistsError
| IsADirectoryError
| OSError.

(** ** The handler *)

Record BackupHandler : Type := mkHandler {
  source_path : string;
  backup_dir : string;
  buffer_size : Z;
  cooldown : Z;
  use_zip : bool;
  last_change_time : Z;
  last_backup_time : Z
}.

(** [BackupHandler.__init__] *)
Definition init (source_path backup_dir : string) (buffer_size cooldown : Z)
    (use_zip : bool) : BackupHandler :=
  mkHandler source_path backup_dir buffer_size cooldown use_zip 0 0.

Definition set_last_change_time (h : BackupHandler) (t : Z) : BackupHandler :=
  mkHandler (source_path h) (backup_dir h) (buffer_size h) (cooldown h)
            (use_zip h) t (last_backup_time h).

Definition set_last_backup_time (h : BackupHandler) (t : Z) : BackupHandler :=
  mkHandler (source_path h) (backup_dir h) (buffer_size h) (cooldown h)
            (use_zip h) (last_change_time h) t.

(** A watchdog event, as far as the handler looks at it. *)
Record event : Type := mkEvent { is_directory : bool }.

(** [on_any_event], called when the clock reads [now]. *)
Definition on_any_event (h : BackupHandler) (ev : event) (now : Z) : BackupHandler :=
  if negb (is_directory ev) then set_last_change_time h now else h.

(** [should_backup], called when the clock reads [now]. *)
Definition should_backup (h : BackupHandler) (now : Z) : bool :=
  (last_backup_time h <? last_change_time h)
  && (cooldown h <=? now - last_change_time h).

(** The tracker starts with both times at 0; a time is set once it holds a
    clock reading, and the clock never reads 0. *)
Definition is_set (t : Z) : Prop := t <> 0.

(** A burst of file events, one per clock reading, in call order. *)
Definition record_changes (h : BackupHandler) (ts : list Z) : BackupHandler :=
  fold_left (fun h t => on_any_event h (mkEvent false) t) ts h.

(** The largest element of a list of readings ([d] for the empty list). *)
Definition max_time (d : Z) (ts : list Z) : Z :=
  match ts with
  | [] => d
  | t :: ts' => fold_left Z.max ts' t
  end.

(** ** The backup directory *)

(** The data of an artifact: the files of the snapshot, by relative path. *)
Definition content : Type := list (string * string).

Record entry : Type := mkEntry {
  name : string;
  is_dir : bool;
  mtime : Z;
  data : content
}.

Definition directory : Type := list entry.

Definition find_entry (d : directory) (f : string) : option entry :=
  find (fun e => String.eqb (name e) f) d.

(** [os.listdir] *)
Definition listdir (d : directory) : list string := map name d.

(** [os.path.isdir] of a child *)
Definition isdir (d : directory) (f : string) : bool :=
  match find_entry d f with
  | Some e => is_dir e
  | None => false
  end.

(** [os.path.getmtime] of a child.  It is only called on listed names; the
    0 of the missing case is never reached from [cleanup_backups]. *)
Definition getmtime (d : directory) (f : string) : Z :=
  match find_entry d f with
  | Some e => mtime e
  | None => 0
  end.

(** The effect of a successful [shutil.rmtree] or [os.remove] of a child. *)
Definition remove_entry (d : directory) (f : string) : directory :=
  filter (fun e => negb (String.eqb (name e) f)) d.

(** Writing a regular file under name [f]: an existing file is truncated
    and replaced where it stands, a new one is added to the listing. *)
Fixpoint write_file (d : directory) (f : string) (t : Z) (c : content) : directory :=
  match d with
  | [] => [mkEntry f false t c]
  | e :: d' =>
      if String.eqb (name e) f then mkEntry f false t c :: d'
      else e :: write_file d' f t c
  end.

(** Creating a directory [f] that does not exist yet. *)
Definition make_dir (d : directory) (f : string) (t : Z) (c : content) : directory :=
  d ++ [mkEntry f true t c].

(** ** The log *)

(** [log_message] appends one line to the log file.  The line is kept
    without its wall-clock prefix. *)
Definition log_message (log : list string) (message : string) : list string :=
  log ++ [message].

(** ** What the environment decides during one backup cycle *)

(** The snapshot write either completes, or raises; when it raises it may
    leave a partial artifact under the final name. *)
Inductive write_outcome : Type :=
| WriteOk
| WriteFails (e : error) (partial : option content).

Record cycle_env : Type := mkEnv {
  stamp : string;            (* datetime.now().strftime("%Y-%m-%d_%H-%M-%S") *)
  snapshot : content;        (* the source tree at the time of the cycle *)
  outcome : write_outcome;   (* what the I/O of the write does *)
  art_mtime : Z;             (* the modification time the artifact gets *)
  t_done : Z;                (* time.time() once the write has completed *)
  del_fails : string -> bool (* the children whose deletion raises *)
}.

(** ** Retention: [cleanup_backups] *)

Definition shutil_rmtree (d : directory) (f : string) : directory := remove_entry d f.
Definition os_remove (d : directory) (f : string) : directory := remove_entry d f.

(** The matching children: [f.endswith(".zip") or os.path.isdir(...)]. *)
Definition is_backup (d : directory) (f : string) : bool :=
  endswith f ".zip" || isdir d f.

(** The list [items] of [cleanup_backups]. *)
Definition backup_items (d : directory) : list string :=
  sorted_desc (getmtime d) (filter (is_backup d) (listdir d)).

(** The [for old in items[buffer_size:]] loop.  A deletion that raises ends
    the loop: nothing in [cleanup_backups] catches the exception.  The child
    whose deletion raised stays in the directory; [shutil.rmtree] may have
    unlinked part of a directory before it raised, and what is left inside
    that child is not tracked: its entry stands for the child being there,
    not for its contents. *)
Fixpoint remove_old (del_fails : string -> bool) (olds : list string)
    (d : directory) (log : list string) : directory * list string * option error :=
  match olds with
  | [] => (d, log, None)
  | old :: rest =>
      if del_fails old then (d, log, Some OSError)
      else
        let d' := if isdir d old then shutil_rmtree d old else os_remove d old in
        remove_old del_fails rest d'
          (log_message log ("[CLEANUP] Removed old backup: " +++ old))
  end.

Definition cleanup_backups (h : BackupHandler) (d : directory) (log : list string)
    (del_fails : string -> bool) : directory * list string * option error :=
  if buffer_size h <=? 0 then (d, log, None)
  else remove_old del_fails (skipn (Z.to_nat (buffer_size h)) (backup_items d)) d log.

(** ** The backup cycle: [create_backup] *)

Definition backup_name (h : BackupHandler) (env : cycle_env) : string :=
  basename (source_path h) +++ "_" +++ stamp env.

(** Archive mode: [zipfile.ZipFile(zip_path, "w", ...)] opens the file for
    writing, which truncates a file that is already there and raises on a
    directory. *)
Definition write_zip (h : BackupHandler) (d : directory) (log : list string)
    (env : cycle_env) : directory * list string * option error :=
  let f := backup_name h env +++ ".zip" in
  let zip_path := join (backup_dir h) f in
  if isdir d f then (d, log, Some IsADirectoryError)
  else
    match outcome env with
    | WriteOk =>
        (write_file d f (art_mtime env) (snapshot env),
         log_message log ("[BACKUP] Created ZIP: " +++ zip_path), None)
    | WriteFails e None => (d, log, Some e)
    | WriteFails e (Some c) => (write_file d f (art_mtime env) c, log, Some e)
    end.

(** Copy mode: [shutil.copytree] first creates the destination and raises
    [FileExistsError] when it exists. *)
Definition copy_tree (h : BackupHandler) (d : directory) (log : list string)
    (env : cycle_env) : directory * list string * option error :=
  let f := backup_name h env in
  let dest_folder := join (backup_dir h) f in
  match find_entry d f with
  | Some _ => (d, log, Some FileExistsError)
  | None =>
      match outcome env with
      | WriteOk =>
          (make_dir d f (art_mtime env) (snapshot env),
           log_message log ("[BACKUP] Copied folder: " +++ dest_folder), None)
      | WriteFails e None => (d, log, Some e)
      | WriteFails e (Some c) => (make_dir d f (art_mtime env) c, log, Some e)
      end
  end.

(** The [if self.use_zip: ... else: ...] of [create_backup]. *)
Definition write_snapshot (h : BackupHandler) (d : directory) (log : list string)
    (env : cycle_env) : directory * list string * option error :=
  if use_zip h then write_zip h d log env else copy_tree h d log env.

Definition create_backup (h : BackupHandler) (d : directory) (log : list string)
    (env : cycle_env) : BackupHandler * directory * list string * option error :=
  match write_snapshot h d log env with
  | (d1, log1, Some e) => (h, d1, log1, Some e)
  | (d1, log1, None) =>
      let h1 := set_last_backup_time h (t_done env) in
      match cleanup_backups h1 d1 log1 (del_fails env) with
      | (d2, log2, r) => (h1, d2, log2, r)
      end
  end.

(** ** The polling loop of [start] *)

Record world : Type := mkWorld {
  handler : BackupHandler;
  dir : directory;
  log : list string
}.

(** What happens next: the observer delivers an event, the loop wakes up
    and polls, or the user interrupts. *)
Inductive op : Type :=
| FsEvent (ev : event) (now : Z)
| Tick (now : Z) (env : cycle_env)
| KeyboardInterrupt.

Inductive status : Type :=
| Running
| Stopped
| Raised (e : error).

(** One loop iteration: [if handler.should_backup(): handler.create_backup()]. *)
Definition poll (w : world) (now : Z) (env : cycle_env) : world * status :=
  if should_backup (handler w) now then
    match create_backup (handler w) (dir w) (log w) env with
    | (h', d', log', None) => (mkWorld h' d' log', Running)
    | (h', d', log', Some e) => (mkWorld h' d' log', Raised e)
    end
  else (w, Running).

Definition step (w : world) (o : op) : world * status :=
  match o with
  | FsEvent ev now => (mkWorld (on_any_event (handler w) ev now) (dir w) (log w), Running)
  | Tick now env => poll w now env
  | KeyboardInterrupt => (w, Stopped)
  end.

(** The [try: while True: ... except KeyboardInterrupt] of [start]: the loop
    ends at the interrupt, and at any other exception, which is not caught. *)
Fixpoint start_loop (w : world) (ops : list op) : world * status :=
  match ops with
  | [] => (w, Running)
  | o :: ops' =>
      match step w o with
      | (w', Running) => start_loop w' ops'
      | (w', st) => (w', st)
      end
  end.

(** The clock readings of a trace, in the order they are taken. *)
Definition readings (o : op) : list Z :=
  match o with
  | FsEvent _ now => [now]
  | Tick now env => [now; t_done env]
  | KeyboardInterrupt => []
  end.

Definition clock_of (ops : list op) : list Z := flat_map readings ops.

(** The clock never runs backwards, and never reads before [t0]. *)
Fixpoint clock_from (t0 : Z) (ts : list Z) : Prop :=
  match ts with
  | [] => True
  | t :: ts' => t0 <= t /\ clock_from t ts'
  end.

(** ** Start-up: [start] *)

(** [s.rstrip("/")] *)
Fixpoint rstrip_slash (s : string) : string :=
  match s with
  | EmptyString => EmptyString
  | String c rest =>
      match rstrip_slash rest with
      | EmptyString => if Ascii.eqb c "/" then EmptyString else String c EmptyString
      | r => String c r
      end
  end.

(** [s == "/" * len(s)] *)
Fixpoint all_slashes (s : string) : bool :=
  match s with
  | EmptyString => true
  | String c rest => Ascii.eqb c "/" && all_slashes rest
  end.

(** [os.path.dirname] (POSIX): the text up to the last slash, without its
    trailing slashes unless it consists of slashes only. *)
Definition dirname (p : string) : string :=
  let head := substring 0 (String.length p - String.length (basename p)) p in
  if negb (String.eqb head "") && negb (all_slashes head) then rstrip_slash head
  else head.

(** [str] of an integer and of a boolean, as the f-strings print them. *)
Definition str_int (z : Z) : string := NilZero.string_of_int (Z.to_int z).
Definition str_bool (b : bool) : string := if b then "True" else "False".

(** [s * n] *)
Fixpoint str_times (s : string) (n : nat) : string :=
  match n with
  | O => EmptyString
  | S n' => s +++ str_times s n'
  end.

(** What [start] finds at the path of the backup directory. *)
Inductive node : Type :=
| Absent
| RegularFile
| Folder (d : directory).

(** The machine [start] runs on. *)
Record host : Type := mkHost {
  source_exists : bool;           (* os.path.exists(source_path) *)
  at_backup_dir : node;           (* what is at backup_dir *)
  makedirs_fault : option error;  (* creating the backup directory raises *)
  open_fault : option error;      (* opening the log file raises *)
  old_log : list string;          (* the lines of the log file, if it exists *)
  t_open : Z                      (* the modification time a new log file gets *)
}.

(** [os.makedirs(backup_dir, exist_ok=True)] *)
Definition makedirs (hst : host) : directory + error :=
  match at_backup_dir hst with
  | Folder d => inl d
  | RegularFile => inr FileExistsError
  | Absent =>
      match makedirs_fault hst with
      | Some e => inr e
      | None => inl []
      end
  end.

Definition log_file_name : string := "backup_log.txt".

(** [open(log_file_path, "a", ...)]: an existing file keeps its lines, a
    missing one is created empty, a directory cannot be opened. *)
Definition open_log (hst : host) (d : directory) : (directory * list string) + error :=
  match find_entry d log_file_name with
  | Some e =>
      if is_dir e then inr IsADirectoryError
      else
        match open_fault hst with
        | Some er => inr er
        | None => inl (d, old_log hst)
        end
  | None =>
      match open_fault hst with
      | Some er => inr er
      | None => inl (d ++ [mkEntry log_file_name false (t_open hst) []], [])
      end
  end.

(** [backup_path or os.path.join(os.path.dirname(source_path), "AutoBackups")] *)
Definition choose_backup_dir (source_path : string) (backup_path : option string) : string :=
  match backup_path with
  | Some p => if String.eqb p "" then join (dirname source_path) "AutoBackups" else p
  | None => join (dirname source_path) "AutoBackups"
  end.

(** The four lines [start] logs before it enters the loop. *)
Definition banner (h : BackupHandler) (lg : list string) : list string :=
  let lg1 := log_message lg ("[INFO] Watching source: " +++ source_path h) in
  let lg2 := log_message lg1 ("[INFO] Backups stored in: " +++ backup_dir h) in
  let lg3 := log_message lg2
               ("[INFO] Cooldown=" +++ str_int (cooldown h) +++ "s, Buffer="
                +++ str_int (buffer_size h) +++ ", ZIP=" +++ str_bool (use_zip h)) in
  log_message lg3 (str_times "-" 60).

Inductive start_result : Type :=
| NotStarted                          (* the source path does not exist *)
| StartupRaised (e : error)           (* an exception before the loop *)
| Started (w : world) (st : status).  (* the loop ran *)

(** [start]; [ops] is what happens once the observer is running. *)
Definition start (source_path : string) (backup_path : option string)
    (buffer_size cooldown : Z) (use_zip : bool) (hst : host) (ops : list op)
    : start_result :=
  if negb (source_exists hst) then NotStarted
  else
    let backup_dir := choose_backup_dir source_path backup_path in
    match makedirs hst with
    | inr e => StartupRaised e
    | inl d0 =>
        match open_log hst d0 with
        | inr e => StartupRaised e
        | inl (d1, lg0) =>
            let handler := init source_path backup_dir buffer_size cooldown use_zip in
            match start_loop (mkWorld handler d1 (banner handler lg0)) ops with
            | (w, st) => Started w st
            end
        end
    end.

(** ** Vocabulary of the properties *)

(** The name under which a cycle writes its artifact. *)
Definition artifact_name (h : BackupHandler) (env : cycle_env) : string :=
  if use_zip h then backup_name h env +++ ".zip" else backup_name h env.

(** No slash in a name. *)
Fixpoint no_slash (s : string) : bool :=
  match s with
  | EmptyString => true
  | String c rest => negb (Ascii.eqb c "/") && no_slash rest
  end.

(** A trace in which the observer only reports directories. *)
Definition no_file_event (o : op) : bool :=
  match o with
  | FsEvent ev _ => is_directory ev
  | Tick _ _ => true
  | KeyboardInterrupt => true
  end.

(** Membership of a name in a list of names. *)
Definition named_in (fs : list string) (f : string) : bool :=
  existsb (String.eqb f) fs.

(** Removing every child named in [fs]. *)
Definition remove_all (d : directory) (fs : list string) : directory :=
  filter (fun e => negb (named_in fs (name e))) d.

(** The matching children of a directory, in listing order. *)
Definition artifacts (d : directory) : list string :=
  filter (is_backup d) (listdir d).

(** The lines [cleanup_backups] logs for the children it removed. *)
Definition cleanup_lines (fs : list string) : list string :=
  map (fun old => "[CLEANUP] Removed old backup: " +++ old) fs.

(** What the loop of [cleanup_backups] gets through: the children it
    removes, and the exception that stops it, if any. *)
Fixpoint swept (del_fails : string -> bool) (olds : list string)
    : list string * option error :=
  match olds with
  | [] => ([], None)
  | old :: rest =>
      if del_fails old then ([], Some OSError)
      else (old :: fst (swept del_fails rest), snd (swept del_fails rest))
  end.

(** The naming convention of the backups: the names [create_backup] gives,
    [<basename>_<YYYY-MM-DD_HH-MM-SS>], with [.zip] for an archive. *)
Definition is_digit (c : ascii) : bool :=
  (48 <=? nat_of_ascii c)%nat && (nat_of_ascii c <=? 57)%nat.

(** In a pattern the letter [d] stands for a digit, any other character for
    itself. *)
Fixpoint shaped_like (pattern s : string) : bool :=
  match pattern, s with
  | EmptyString, EmptyString => true
  | String p pattern', String c s' =>
      (if Ascii.eqb p "d" then is_digit c else Ascii.eqb p c)
      && shaped_like pattern' s'
  | _, _ => false
  end.

Definition stamp_shaped (s : string) : bool := shaped_like "dddd-dd-dd_dd-dd-dd" s.

Definition follows_convention (h : BackupHandler) (f : string) : bool :=
  let pre := basename (source_path h) +++ "_" in
  if String.prefix pre f then
    let rest := substring (String.length pre) (String.length f - String.length pre) f in
    stamp_shaped rest
    || (endswith rest ".zip"
        && stamp_shaped (substring 0 (String.length rest - 4) rest))
  else false.

(** Descending order of the keys. *)
Definition key_ge {A : Type} (key : A -> Z) (a b : A) : Prop := key b <= key a.

(** ** Sample data *)

Definition no_faults : string -> bool := fun _ => false.

Definition tree_v1 : content := [("notes.txt", "first")].
Definition tree_v2 : content := [("notes.txt", "second")].

(** A cycle in which nothing goes wrong. *)
Definition good_cycle (stamp : string) (tree : content) (t : Z) : cycle_env :=
  mkEnv stamp tree WriteOk t t no_faults.

(** A cycle whose write raises before anything is created. *)
Definition bad_cycle (stamp : string) (tree : content) (t : Z) : cycle_env :=
  mkEnv stamp tree (WriteFails OSError None) t t no_faults.

Definition zip_handler : BackupHandler := init "/srv/data" "/srv/AutoBackups" 2 5 true.
Definition copy_handler : BackupHandler := init "/srv/data" "/srv/AutoBackups" 2 5 false.

Definition fresh (h : BackupHandler) : world := mkWorld h [] [].

Definition file_event : event := mkEvent false.
Definition directory_event : event := mkEvent true.

Definition keep (n : Z) (zip : bool) : BackupHandler :=
  init "/srv/data" "/srv/AutoBackups" n 5 zip.

Definition zip_entry (f : string) (t : Z) : entry := mkEntry f false t tree_v1.

(** Three archives, oldest last. *)
Definition three_zips : directory :=
  [zip_entry "a.zip" 30; zip_entry "b.zip" 20; zip_entry "c.zip" 10].

(** Two archives written within one tick of the filesystem clock, in the
    two orders a listing can report them. *)
Definition tied_ab : directory := [zip_entry "a.zip" 7; zip_entry "b.zip" 7].
Definition tied_ba : directory := [zip_entry "b.zip" 7; zip_entry "a.zip" 7].

(** The log file of [start]. *)
Definition log_file : entry := mkEntry "backup_log.txt" false 100 [].

Definition b_is_locked : string -> bool := fun f => String.eqb f "b.zip".

(** Four archives, of which the second oldest cannot be deleted. *)
Definition four_zips : directory :=
  [zip_entry "w.zip" 40; zip_entry "x.zip" 30; zip_entry "y.zip" 20; zip_entry "z.zip" 10].
Definition y_is_locked : string -> bool := fun f => String.eqb f "y.zip".

(** A file somebody put into the backup directory. *)
Definition readme : entry := mkEntry "README.txt" false 1 [("README.txt", "keep")].

(** Things in the backup directory that no backup cycle wrote. *)
Definition holiday_photos (t : Z) : entry :=
  mkEntry "holiday_photos" true t [("beach.jpg", "pixels")].
Definition thesis_zip : entry := mkEntry "thesis.zip" false 3 [("thesis.tex", "text")].

(** A backup of [/srv/data] as archive mode names it. *)
Definition real_backup : entry := mkEntry "data_2024-01-01_00-00-07.zip" false 50 tree_v1.

(** A machine with the source in place and no backup directory yet. *)
Definition clean_host : host := mkHost true Absent None None [] 1.

(** * Properties *)

(** ** The change tracker and the debounce test *)

Section Tracker.

Variable h : BackupHandler.

Lemma should_backup_spec (now : Z) :
  should_backup h now = true <->
  last_backup_time h < last_change_time h /\
  cooldown h <= now - last_change_time h.
Proof.
  unfold should_backup.
  rewrite andb_true_iff, Z.ltb_lt, Z.leb_le.
  reflexivity.
Qed.

Lemma on_file_event (now : Z) :
  on_any_event h (mkEvent false) now = set_last_change_time h now.
Proof. reflexivity. Qed.

Lemma on_directory_event (now : Z) :
  on_any_event h (mkEvent true) now = h.
Proof. reflexivity. Qed.

End Tracker.

Lemma last_cons_default {A : Type} (ts : list A) :
  forall t d, last (t :: ts) d = last ts t.
Proof.
  induction ts as [|t' ts IH]; intros t d.
  - reflexivity.
  - change (last (t :: t' :: ts) d) with (last (t' :: ts) d).
    rewrite (IH t' d), (IH t' t). reflexivity.
Qed.

(** A burst only moves [last_change_time]; it lands on the reading of the
    last call. *)
Lemma record_changes_fields (ts : list Z) :
  forall h,
    last_backup_time (record_changes h ts) = last_backup_time h /\
    cooldown (record_changes h ts) = cooldown h /\
    last_change_time (record_changes h ts) = last ts (last_change_time h).
Proof.
  induction ts as [|t ts IH]; intro h.
  - repeat split.
  - change (record_changes h (t :: ts))
      with (record_changes (on_any_event h (mkEvent false) t) ts).
    destruct (IH (on_any_event h (mkEvent false) t)) as (Hb & Hc & Hl).
    rewrite Hb, Hc, Hl, last_cons_default.
    repeat split.
Qed.

Lemma fold_max_ge (ts : list Z) :
  forall a, a <= fold_left Z.max ts a /\
            forall t, In t ts -> t <= fold_left Z.max ts a.
Proof.
  induction ts as [|t ts IH]; intro a; simpl.
  - split; [lia | intros t []].
  - destruct (IH (Z.max a t)) as [H1 H2]. split; [lia|].
    intros u [<- | Hu]; [lia | apply H2; exact Hu].
Qed.

(** [max_time] is an upper bound of the readings. *)
Lemma max_time_ge (d : Z) (ts : list Z) :
  forall t, In t ts -> t <= max_time d ts.
Proof.
  destruct ts as [|t0 ts]; intros t Ht; [destruct Ht|].
  simpl. destruct (fold_max_ge ts t0) as [H1 H2].
  destruct Ht as [<- | Ht]; [exact H1 | apply H2; exact Ht].
Qed.

(** On a clock that does not run backwards the last reading is the largest. *)
Lemma last_is_max (ts : list Z) :
  forall t0 d, clock_from t0 ts -> last ts d = max_time d ts.
Proof.
  induction ts as [|t ts IH]; intros t0 d Hc.
  - reflexivity.
  - destruct Hc as [_ Hc].
    destruct ts as [|t' ts'].
    + reflexivity.
    + change (last (t :: t' :: ts') d) with (last (t' :: ts') d).
      rewrite (IH t d Hc).
      destruct Hc as [Htt' _].
      simpl. rewrite Z.max_r by exact Htt'. reflexivity.
Qed.

(** C1. [should_backup] answers true exactly when a change time is set, it
    is later than the last backup time, and the cooldown has elapsed since
    it; after a burst of file events stamped by the clock [ts] and a poll
    at [t_p], it answers true exactly when [t_p - max ts >= cooldown] and
    [max ts > last_backup_time]. *)
Theorem should_backup_debounce (h : BackupHandler) (ts : list Z) (t0 t_p : Z) :
  0 <= last_backup_time h ->
  clock_from t0 ts ->
  (should_backup h t_p = true <->
     is_set (last_change_time h) /\
     last_change_time h > last_backup_time h /\
     t_p - last_change_time h >= cooldown h)
  /\
  (should_backup (record_changes h ts) t_p = true <->
     t_p - max_time (last_change_time h) ts >= cooldown h /\
     max_time (last_change_time h) ts > last_backup_time h).
Proof.
  intros Hb Hc. split.
  - rewrite should_backup_spec. unfold is_set. lia.
  - rewrite should_backup_spec.
    destruct (record_changes_fields ts h) as (Eb & Ec & El).
    rewrite Eb, Ec, El, (last_is_max ts t0 _ Hc). lia.
Qed.

Lemma should_backup_debounce_witness :
  let h := init "/srv/data" "/srv/AutoBackups" 2 5 false in
  0 <= last_backup_time h /\
  clock_from 1 [1; 2; 3] /\
  (should_backup h 8 = true <->
     is_set (last_change_time h) /\
     last_change_time h > last_backup_time h /\
     8 - last_change_time h >= cooldown h) /\
  (should_backup (record_changes h [1; 2; 3]) 8 = true <->
     8 - max_time (last_change_time h) [1; 2; 3] >= cooldown h /\
     max_time (last_change_time h) [1; 2; 3] > last_backup_time h).
Proof.
  intro h.
  split; [simpl; lia|].
  split; [simpl; lia|].
  apply (should_backup_debounce h [1; 2; 3] 1 8); simpl; lia.
Defined.

(** ** The backup cycle *)

Section Cycle.

Variables (h : BackupHandler) (d : directory) (lg : list string) (env : cycle_env).

(** A write that raises has logged nothing. *)
Lemma write_snapshot_raises_log (d1 : directory) (lg1 : list string) (e : error) :
  write_snapshot h d lg env = (d1, lg1, Some e) -> lg1 = lg.
Proof.
  unfold write_snapshot, write_zip, copy_tree.
  destruct (use_zip h).
  - destruct (isdir d _).
    + intro H; inversion H; reflexivity.
    + destruct (outcome env) as [|e' [c|]]; intro H; inversion H; reflexivity.
  - destruct (find_entry d _).
    + intro H; inversion H; reflexivity.
    + destruct (outcome env) as [|e' [c|]]; intro H; inversion H; reflexivity.
Qed.

(** A cycle whose write raises stops there: the handler is the one it
    started with, and the exception is the result. *)
Lemma create_backup_raises (d1 : directory) (lg1 : list string) (e : error) :
  write_snapshot h d lg env = (d1, lg1, Some e) ->
  create_backup h d lg env = (h, d1, lg, Some e).
Proof.
  intro H. unfold create_backup.
  rewrite H, (write_snapshot_raises_log d1 lg1 e H). reflexivity.
Qed.

(** A cycle whose write completes records the backup time before it
    sweeps. *)
Lemma create_backup_written (d1 : directory) (lg1 : list string) :
  write_snapshot h d lg env = (d1, lg1, None) ->
  exists d2 lg2 r,
    cleanup_backups (set_last_backup_time h (t_done env)) d1 lg1 (del_fails env)
      = (d2, lg2, r) /\
    create_backup h d lg env = (set_last_backup_time h (t_done env), d2, lg2, r).
Proof.
  intro H. unfold create_backup. rewrite H.
  destruct (cleanup_backups _ d1 lg1 _) as [[d2 lg2] r].
  exists d2, lg2, r. split; reflexivity.
Qed.

(** The handler after a cycle: untouched, or with the new backup time. *)
Lemma create_backup_handler :
  let h' := fst (fst (fst (create_backup h d lg env))) in
  (h' = h /\ exists e, snd (write_snapshot h d lg env) = Some e) \/
  (h' = set_last_backup_time h (t_done env) /\
   snd (write_snapshot h d lg env) = None).
Proof.
  destruct (write_snapshot h d lg env) as [[d1 lg1] [e|]] eqn:H.
  - left. rewrite (create_backup_raises d1 lg1 e H). simpl. eauto.
  - right. destruct (create_backup_written d1 lg1 H) as (d2 & lg2 & r & _ & E).
    rewrite E. simpl. auto.
Qed.

End Cycle.

(** ** The polling loop *)

Lemma clock_from_last (ts : list Z) :
  forall t0, clock_from t0 ts -> t0 <= last ts t0.
Proof.
  induction ts as [|t ts IH]; intros t0 Hc.
  - simpl. lia.
  - destruct Hc as [Ht Hc]. rewrite last_cons_default.
    specialize (IH t Hc). lia.
Qed.

Lemma clock_from_app (l1 : list Z) :
  forall t0 l2,
    clock_from t0 (l1 ++ l2) <-> clock_from t0 l1 /\ clock_from (last l1 t0) l2.
Proof.
  induction l1 as [|t l1 IH]; intros t0 l2.
  - simpl. tauto.
  - rewrite last_cons_default. simpl. rewrite (IH t l2). tauto.
Qed.

Lemma last_app_default {A : Type} (l1 : list A) :
  forall l2 d, last (l1 ++ l2) d = last l2 (last l1 d).
Proof.
  induction l1 as [|t l1 IH]; intros l2 d.
  - reflexivity.
  - rewrite last_cons_default. simpl app.
    rewrite last_cons_default. apply IH.
Qed.

Lemma start_loop_app (ops1 : list op) :
  forall w ops2,
    start_loop w (ops1 ++ ops2) =
    match start_loop w ops1 with
    | (w1, Running) => start_loop w1 ops2
    | r => r
    end.
Proof.
  induction ops1 as [|o ops1 IH]; intros w ops2.
  - reflexivity.
  - simpl. destruct (step w o) as [w' [| |e]]; [apply IH | reflexivity | reflexivity].
Qed.

(** One loop iteration touches [last_backup_time] only in a cycle that was
    due and whose write completed. *)
Lemma poll_last_backup_time (w : world) (now : Z) (env : cycle_env) :
  let w' := fst (poll w now env) in
  last_backup_time (handler w') = last_backup_time (handler w) \/
  (should_backup (handler w) now = true /\
   snd (write_snapshot (handler w) (dir w) (log w) env) = None /\
   last_backup_time (handler w') = t_done env).
Proof.
  unfold poll.
  destruct (should_backup (handler w) now) eqn:Hs; [|left; reflexivity].
  pose proof (create_backup_handler (handler w) (dir w) (log w) env) as Hc.
  destruct (create_backup (handler w) (dir w) (log w) env) as [[[h' d'] lg'] r].
  simpl in Hc.
  assert (Hw : handler (fst (match r with
                              | Some e => (mkWorld h' d' lg', Raised e)
                              | None => (mkWorld h' d' lg', Running)
                              end)) = h') by (destruct r; reflexivity).
  cbv zeta. rewrite Hw.
  destruct Hc as [[-> _] | [-> Hn]].
  - left. reflexivity.
  - right. repeat split; assumption.
Qed.

Lemma step_last_backup_time (w : world) (o : op) :
  let w' := fst (step w o) in
  last_backup_time (handler w') = last_backup_time (handler w) \/
  exists now env,
    o = Tick now env /\
    should_backup (handler w) now = true /\
    snd (write_snapshot (handler w) (dir w) (log w) env) = None /\
    last_backup_time (handler w') = t_done env.
Proof.
  destruct o as [ev now|now env|].
  - left. simpl. unfold on_any_event.
    destruct (negb (is_directory ev)); reflexivity.
  - destruct (poll_last_backup_time w now env) as [H | H].
    + left. exact H.
    + right. exists now, env. split; [reflexivity | exact H].
  - left. reflexivity.
Qed.

(** Along a run whose clock does not go backwards, the backup time stays
    between what it was and the last reading of the clock. *)
Lemma start_loop_last_backup_time_bounds (ops : list op) :
  forall w t0,
    last_backup_time (handler w) <= t0 ->
    clock_from t0 (clock_of ops) ->
    last_backup_time (handler w) <= last_backup_time (handler (fst (start_loop w ops)))
    /\ last_backup_time (handler (fst (start_loop w ops))) <= last (clock_of ops) t0.
Proof.
  induction ops as [|o ops IH]; intros w t0 Hb Hc.
  - simpl. lia.
  - unfold clock_of in Hc. simpl flat_map in Hc. fold (clock_of ops) in Hc.
    apply clock_from_app in Hc. destruct Hc as [Ho Hops].
    unfold clock_of. simpl flat_map. fold (clock_of ops).
    rewrite last_app_default.
    pose proof (clock_from_last _ _ Hops) as Hlast.
    pose proof (clock_from_last _ _ Ho) as Hlo.
    assert (Hstep : last_backup_time (handler w)
                    <= last_backup_time (handler (fst (step w o)))
                    <= last (readings o) t0).
    { destruct (step_last_backup_time w o) as [E | (now & env & -> & _ & _ & E)].
      - rewrite E. lia.
      - rewrite E. simpl in Ho |- *. lia. }
    simpl start_loop. destruct (step w o) as [w' st]. simpl fst in Hstep.
    destruct st.
    + destruct (IH w' (last (readings o) t0)) as [H1 H2]; [lia | exact Hops |].
      lia.
    + simpl fst. lia.
    + simpl fst. lia.
Qed.

(** C8. Along every run of the loop whose clock does not go backwards,
    [last_backup_time] never decreases; and a step changes it only when it
    is a poll that was due and whose snapshot write completed, to the
    reading taken after the write. *)
Theorem last_backup_time_monotone (w : world) (ops1 ops2 : list op) (t0 : Z) :
  last_backup_time (handler w) <= t0 ->
  clock_from t0 (clock_of (ops1 ++ ops2)) ->
  last_backup_time (handler (fst (start_loop w ops1)))
    <= last_backup_time (handler (fst (start_loop w (ops1 ++ ops2))))
  /\
  (forall (w1 : world) (o : op),
     last_backup_time (handler (fst (step w1 o))) <> last_backup_time (handler w1) ->
     exists now env,
       o = Tick now env /\
       should_backup (handler w1) now = true /\
       snd (write_snapshot (handler w1) (dir w1) (log w1) env) = None /\
       last_backup_time (handler (fst (step w1 o))) = t_done env).
Proof.
  intros Hb Hc. split.
  - unfold clock_of in Hc. rewrite flat_map_app in Hc.
    apply clock_from_app in Hc. destruct Hc as [H1 H2].
    destruct (start_loop_last_backup_time_bounds ops1 w t0 Hb H1) as [_ Hup].
    rewrite start_loop_app.
    destruct (start_loop w ops1) as [w1 st]. simpl fst in *.
    destruct st; try (simpl; lia).
    apply (start_loop_last_backup_time_bounds ops2 w1 _ Hup H2).
  - intros w1 o Hne.
    destruct (step_last_backup_time w1 o) as [E | H]; [contradiction | exact H].
Qed.

Lemma last_backup_time_monotone_witness :
  let w := fresh zip_handler in
  let ops1 := [FsEvent file_event 1; Tick 7 (good_cycle "2024-01-01_00-00-07" tree_v1 8)] in
  let ops2 := [FsEvent file_event 20; Tick 25 (good_cycle "2024-01-01_00-00-25" tree_v2 26)] in
  last_backup_time (handler w) <= 0 /\
  clock_from 0 (clock_of (ops1 ++ ops2)) /\
  last_backup_time (handler (fst (start_loop w ops1)))
    <= last_backup_time (handler (fst (start_loop w (ops1 ++ ops2)))).
Proof.
  intros w ops1 ops2.
  split; [simpl; lia|].
  split; [simpl; lia|].
  apply (last_backup_time_monotone w ops1 ops2 0); simpl; lia.
Defined.

(** A run without file events leaves a tracker with no pending change as
    it is, and creates nothing. *)
Lemma start_loop_no_file_event (ops : list op) :
  forall w,
    last_change_time (handler w) <= last_backup_time (handler w) ->
    forallb no_file_event ops = true ->
    fst (start_loop w ops) = w.
Proof.
  induction ops as [|o ops IH]; intros w Hq Hops.
  - reflexivity.
  - simpl in Hops. apply andb_true_iff in Hops. destruct Hops as [Ho Hops].
    destruct o as [ev now|now env|]; simpl start_loop.
    + simpl in Ho. unfold on_any_event. rewrite Ho. simpl negb. cbv iota.
      destruct w as [h d lg]. simpl handler in *. simpl dir. simpl log.
      apply (IH (mkWorld h d lg) Hq Hops).
    + unfold poll.
      replace (should_backup (handler w) now) with false.
      * apply (IH w Hq Hops).
      * symmetry. unfold should_backup.
        replace (last_backup_time (handler w) <? last_change_time (handler w)) with false
          by (symmetry; apply Z.ltb_ge; exact Hq).
        reflexivity.
    + reflexivity.
Qed.

(** C10. A directory event leaves the handler as it is; hence after any
    stream of directory events [should_backup] answers what it answered
    before, and a run of the loop that sees only directory events, from a
    tracker with no pending change, never finds a backup due and changes
    neither the tracker, the backup directory nor the log. *)
Theorem directory_events_never_trigger (w : world) (ops : list op) :
  last_change_time (handler w) <= last_backup_time (handler w) ->
  forallb no_file_event ops = true ->
  (forall h ev now, is_directory ev = true -> on_any_event h ev now = h)
  /\ fst (start_loop w ops) = w
  /\ (forall now, should_backup (handler (fst (start_loop w ops))) now = false).
Proof.
  intros Hq Hops. split; [|split].
  - intros h ev now Hd. unfold on_any_event. rewrite Hd. reflexivity.
  - apply start_loop_no_file_event; assumption.
  - intro now. rewrite (start_loop_no_file_event ops w Hq Hops).
    unfold should_backup.
    replace (last_backup_time (handler w) <? last_change_time (handler w)) with false
      by (symmetry; apply Z.ltb_ge; exact Hq).
    reflexivity.
Qed.

Lemma directory_events_never_trigger_witness :
  let w := fresh copy_handler in
  let ops := [FsEvent directory_event 1;
              Tick 7 (good_cycle "2024-01-01_00-00-07" tree_v1 8);
              FsEvent directory_event 9;
              Tick 20 (good_cycle "2024-01-01_00-00-20" tree_v1 21)] in
  last_change_time (handler w) <= last_backup_time (handler w) /\
  forallb no_file_event ops = true /\
  fst (start_loop w ops) = w /\
  (forall now, should_backup (handler (fst (start_loop w ops))) now = false).
Proof.
  intros w ops.
  split; [simpl; lia|].
  split; [reflexivity|].
  apply (directory_events_never_trigger w ops); [simpl; lia | reflexivity].
Defined.

(** C4 (as the code has it). When a cycle is due and its snapshot write
    raises, the handler is left as it was (so [last_backup_time] is not
    updated and the backup stays due at every later reading), nothing is
    logged, and the exception leaves the polling loop: the run ends there
    and no later poll is made. *)
Theorem write_failure_ends_loop (w : world) (now : Z) (env : cycle_env)
    (rest : list op) (d1 : directory) (lg1 : list string) (e : error) :
  should_backup (handler w) now = true ->
  write_snapshot (handler w) (dir w) (log w) env = (d1, lg1, Some e) ->
  start_loop w (Tick now env :: rest) = (mkWorld (handler w) d1 (log w), Raised e)
  /\ (forall now', now <= now' -> should_backup (handler w) now' = true).
Proof.
  intros Hs Hw. split.
  - simpl. unfold poll. rewrite Hs.
    rewrite (create_backup_raises _ _ _ _ d1 lg1 e Hw). reflexivity.
  - intros now' Hle. apply should_backup_spec in Hs. apply should_backup_spec. lia.
Qed.

Lemma write_failure_ends_loop_witness :
  let w := mkWorld (set_last_change_time zip_handler 1) [] [] in
  let env := bad_cycle "2024-01-01_00-00-07" tree_v1 8 in
  let rest := [Tick 9 (good_cycle "2024-01-01_00-00-09" tree_v1 10)] in
  should_backup (handler w) 7 = true /\
  write_snapshot (handler w) (dir w) (log w) env = ([], [], Some OSError) /\
  start_loop w (Tick 7 env :: rest) = (mkWorld (handler w) [] (log w), Raised OSError).
Proof.
  intros w env rest.
  split; [reflexivity|].
  split; [reflexivity|].
  apply (write_failure_ends_loop w 7 env rest [] [] OSError); reflexivity.
Defined.

(** C4 fails as stated: the write of the first poll raises; no line is
    logged, and the second poll, whose write would have gone through, is
    never made. *)
Lemma write_failure_not_retried :
  let w := mkWorld (set_last_change_time zip_handler 1) [] [] in
  let failing := Tick 7 (bad_cycle "2024-01-01_00-00-07" tree_v1 8) in
  let retry := Tick 9 (good_cycle "2024-01-01_00-00-09" tree_v1 10) in
  log (fst (start_loop w [failing])) = [] /\
  start_loop w [failing; retry] = (w, Raised OSError) /\
  snd (poll w 9 (good_cycle "2024-01-01_00-00-09" tree_v1 10)) = Running /\
  dir (fst (poll w 9 (good_cycle "2024-01-01_00-00-09" tree_v1 10))) <> [].
Proof.
  repeat split; try reflexivity.
  vm_compute. discriminate.
Qed.

(** Closes [NoDup] and non-membership goals over literal names. *)
Ltac distinct_names :=
  simpl; repeat constructor; simpl; intuition discriminate.

(** ** The stable descending sort *)

Section Sorting.

Context {A : Type}.
Variable key : A -> Z.

Lemma insert_desc_perm (x : A) (l : list A) :
  Permutation (insert_desc key x l) (x :: l).
Proof.
  induction l as [|y l IH]; simpl.
  - apply Permutation_refl.
  - destruct (key x <? key y).
    + apply perm_trans with (y :: x :: l).
      * apply perm_skip. exact IH.
      * apply perm_swap.
    + apply Permutation_refl.
Qed.

Lemma sorted_desc_perm (l : list A) :
  Permutation (sorted_desc key l) l.
Proof.
  induction l as [|x l IH]; simpl.
  - apply perm_nil.
  - apply perm_trans with (x :: sorted_desc key l).
    + apply insert_desc_perm.
    + apply perm_skip. exact IH.
Qed.

Lemma insert_desc_sorted (x : A) (l : list A) :
  StronglySorted (key_ge key) l ->
  StronglySorted (key_ge key) (insert_desc key x l).
Proof.
  induction l as [|y l IH]; intro Hs; simpl.
  - constructor; constructor.
  - apply StronglySorted_inv in Hs. destruct Hs as [Hl Hy].
    destruct (key x <? key y) eqn:E.
    + apply Z.ltb_lt in E. constructor.
      * apply IH. exact Hl.
      * apply (Permutation_Forall (Permutation_sym (insert_desc_perm x l))).
        constructor; [unfold key_ge; lia | exact Hy].
    + apply Z.ltb_ge in E. constructor.
      * constructor; assumption.
      * constructor; [exact E|].
        apply Forall_forall. intros z Hz.
        rewrite Forall_forall in Hy. specialize (Hy z Hz).
        unfold key_ge in *. lia.
Qed.

Lemma sorted_desc_sorted (l : list A) :
  StronglySorted (key_ge key) (sorted_desc key l).
Proof.
  induction l as [|x l IH]; simpl.
  - constructor.
  - apply insert_desc_sorted. exact IH.
Qed.

(** Stability: among the elements of one key the original order stays. *)
Lemma insert_desc_stable (k : Z) (x : A) (l : list A) :
  filter (fun a => key a =? k) (insert_desc key x l)
  = filter (fun a => key a =? k) (x :: l).
Proof.
  induction l as [|y l IH]; [reflexivity|].
  simpl insert_desc. destruct (key x <? key y) eqn:E; [|reflexivity].
  apply Z.ltb_lt in E.
  change (filter (fun a => key a =? k) (y :: insert_desc key x l))
    with (if key y =? k then y :: filter (fun a => key a =? k) (insert_desc key x l)
          else filter (fun a => key a =? k) (insert_desc key x l)).
  rewrite IH. simpl.
  destruct (key x =? k) eqn:Ex, (key y =? k) eqn:Ey; try reflexivity.
  apply Z.eqb_eq in Ex. apply Z.eqb_eq in Ey. lia.
Qed.

Lemma sorted_desc_stable (k : Z) (l : list A) :
  filter (fun a => key a =? k) (sorted_desc key l)
  = filter (fun a => key a =? k) l.
Proof.
  induction l as [|x l IH]; [reflexivity|].
  simpl sorted_desc. rewrite insert_desc_stable. simpl. rewrite IH. reflexivity.
Qed.

(** In a sorted list everything in a front part is at least as recent as
    everything behind it. *)
Lemma sorted_split (l1 l2 : list A) :
  StronglySorted (key_ge key) (l1 ++ l2) ->
  forall a b, In a l1 -> In b l2 -> key b <= key a.
Proof.
  induction l1 as [|x l1 IH]; intros Hs a b Ha Hb.
  - destruct Ha.
  - simpl in Hs. apply StronglySorted_inv in Hs. destruct Hs as [Hl Hx].
    destruct Ha as [<- | Ha].
    + rewrite Forall_forall in Hx. apply Hx. apply in_or_app. right. exact Hb.
    + apply (IH Hl a b Ha Hb).
Qed.

End Sorting.

(** The sort only looks at the keys of the elements it is given. *)
Lemma insert_desc_ext {A : Type} (k1 k2 : A -> Z) (x : A) (l : list A) :
  k1 x = k2 x -> (forall y, In y l -> k1 y = k2 y) ->
  insert_desc k1 x l = insert_desc k2 x l.
Proof.
  intros Hx. induction l as [|y l IH]; intro Hl; [reflexivity|].
  simpl. rewrite Hx, (Hl y (or_introl eq_refl)).
  rewrite IH by (intros z Hz; apply Hl; right; exact Hz).
  reflexivity.
Qed.

Lemma sorted_desc_ext {A : Type} (k1 k2 : A -> Z) (l : list A) :
  (forall y, In y l -> k1 y = k2 y) ->
  sorted_desc k1 l = sorted_desc k2 l.
Proof.
  induction l as [|x l IH]; intro Hl; [reflexivity|].
  simpl. rewrite IH by (intros z Hz; apply Hl; right; exact Hz).
  apply insert_desc_ext.
  - apply Hl. left. reflexivity.
  - intros y Hy. apply Hl. right.
    apply (Permutation_in _ (sorted_desc_perm k2 l) Hy).
Qed.

Lemma filter_perm {A : Type} (p : A -> bool) (l l' : list A) :
  Permutation l l' -> Permutation (filter p l) (filter p l').
Proof.
  induction 1 as [|x l l' _ IH|x y l|l l' l'' _ IH1 _ IH2]; simpl.
  - apply perm_nil.
  - destruct (p x); [apply perm_skip|]; exact IH.
  - destruct (p x), (p y); try apply Permutation_refl. apply perm_swap.
  - apply perm_trans with (filter p l'); assumption.
Qed.

Lemma filter_all {A : Type} (p : A -> bool) (l : list A) :
  (forall x, In x l -> p x = true) -> filter p l = l.
Proof.
  induction l as [|x l IH]; intro H; [reflexivity|].
  simpl. rewrite (H x (or_introl eq_refl)).
  rewrite IH by (intros y Hy; apply H; right; exact Hy). reflexivity.
Qed.

Lemma filter_none {A : Type} (p : A -> bool) (l : list A) :
  (forall x, In x l -> p x = false) -> filter p l = [].
Proof.
  induction l as [|x l IH]; intro H; [reflexivity|].
  simpl. rewrite (H x (or_introl eq_refl)).
  apply IH. intros y Hy. apply H. right. exact Hy.
Qed.

Lemma NoDup_app_disjoint {A : Type} (l1 l2 : list A) :
  NoDup (l1 ++ l2) -> forall a, In a l1 -> ~ In a l2.
Proof.
  induction l1 as [|x l1 IH]; intros Hn a Ha Hb.
  - destruct Ha.
  - simpl in Hn. inversion Hn as [|? ? Hx Hn']; subst.
    destruct Ha as [<- | Ha].
    + apply Hx. apply in_or_app. right. exact Hb.
    + apply (IH Hn' a Ha Hb).
Qed.

(** ** The backup directory *)

Lemma named_in_true (fs : list string) (f : string) :
  named_in fs f = true <-> In f fs.
Proof.
  unfold named_in. rewrite existsb_exists. split.
  - intros (g & Hg & E). apply String.eqb_eq in E. subst. exact Hg.
  - intro H. exists f. split; [exact H | apply String.eqb_refl].
Qed.

Lemma named_in_false (fs : list string) (f : string) :
  named_in fs f = false <-> ~ In f fs.
Proof.
  rewrite <- named_in_true. destruct (named_in fs f); split; congruence.
Qed.

Lemma find_entry_listed (d : directory) (f : string) :
  In f (listdir d) ->
  exists e, find_entry d f = Some e /\ In e d /\ name e = f.
Proof.
  unfold listdir, find_entry. induction d as [|e d IH]; intro H.
  - destruct H.
  - simpl. destruct (String.eqb (name e) f) eqn:E.
    + exists e. apply String.eqb_eq in E. auto.
    + destruct H as [H | H].
      * apply String.eqb_neq in E. contradiction.
      * destruct (IH H) as (e' & H1 & H2 & H3). exists e'. auto.
Qed.

(** On a listed name [getmtime] and [isdir] read an entry of that name. *)
Lemma getmtime_listed (d : directory) (f : string) :
  In f (listdir d) ->
  exists e, In e d /\ name e = f /\ getmtime d f = mtime e /\ isdir d f = is_dir e.
Proof.
  intro H. destruct (find_entry_listed d f H) as (e & Hf & Hin & Hn).
  exists e. unfold getmtime, isdir. rewrite Hf. auto.
Qed.

Lemma find_entry_remove_all (d : directory) (fs : list string) (f : string) :
  find_entry (remove_all d fs) f
  = if named_in fs f then None else find_entry d f.
Proof.
  unfold find_entry, remove_all. induction d as [|e d IH]; simpl.
  - destruct (named_in fs f); reflexivity.
  - destruct (named_in fs (name e)) eqn:Ee; simpl.
    + rewrite IH. destruct (named_in fs f) eqn:Ef; [reflexivity|].
      destruct (String.eqb (name e) f) eqn:E; [|reflexivity].
      apply String.eqb_eq in E. congruence.
    + destruct (String.eqb (name e) f) eqn:E.
      * apply String.eqb_eq in E. rewrite <- E, Ee. reflexivity.
      * exact IH.
Qed.

Lemma remove_all_nil (d : directory) : remove_all d [] = d.
Proof. unfold remove_all. apply filter_all. reflexivity. Qed.

Lemma remove_entry_remove_all (d : directory) (f : string) (fs : list string) :
  remove_all (remove_entry d f) fs = remove_all d (f :: fs).
Proof.
  unfold remove_all, remove_entry, named_in. induction d as [|e d IH]; [reflexivity|].
  simpl. destruct (String.eqb (name e) f); simpl.
  - exact IH.
  - destruct (existsb (String.eqb (name e)) fs); simpl; [exact IH | f_equal; exact IH].
Qed.

Lemma listdir_remove_all (d : directory) (fs : list string) :
  listdir (remove_all d fs) = filter (fun f => negb (named_in fs f)) (listdir d).
Proof.
  unfold listdir, remove_all. symmetry. apply filter_map_swap.
Qed.

Lemma is_backup_remove_all (d : directory) (fs : list string) (f : string) :
  named_in fs f = false ->
  is_backup (remove_all d fs) f = is_backup d f.
Proof.
  intro H. unfold is_backup, isdir.
  rewrite find_entry_remove_all, H. reflexivity.
Qed.

Lemma filter_swap_on {A : Type} (p p' q : A -> bool) (l : list A) :
  (forall x, In x l -> q x = true -> p' x = p x) ->
  filter p' (filter q l) = filter q (filter p l).
Proof.
  induction l as [|x l IH]; intro H; [reflexivity|].
  assert (IH' : filter p' (filter q l) = filter q (filter p l))
    by (apply IH; intros y Hy; apply H; right; exact Hy).
  simpl. destruct (q x) eqn:Eq; simpl.
  - rewrite (H x (or_introl eq_refl) Eq).
    destruct (p x); simpl; rewrite ?Eq, IH'; reflexivity.
  - destruct (p x); simpl; rewrite ?Eq, IH'; reflexivity.
Qed.

(** The matching children left after some children are removed. *)
Lemma artifacts_remove_all (d : directory) (fs : list string) :
  artifacts (remove_all d fs)
  = filter (fun f => negb (named_in fs f)) (artifacts d).
Proof.
  unfold artifacts. rewrite listdir_remove_all.
  apply filter_swap_on. intros f _ Hf.
  apply is_backup_remove_all. apply negb_true_iff. exact Hf.
Qed.

(** ** The retention sweep *)

Section Sweep.

Variable faults : string -> bool.

(** The loop removes and logs the children in order as long as no
    deletion raises. *)
Lemma remove_old_prefix (pre : list string) :
  forall (rest : list string) (d : directory) (lg : list string),
    (forall g, In g pre -> faults g = false) ->
    remove_old faults (pre ++ rest) d lg
    = remove_old faults rest (remove_all d pre) (lg ++ cleanup_lines pre).
Proof.
  induction pre as [|a pre IH]; intros rest d lg Hp.
  - simpl. rewrite remove_all_nil, app_nil_r. reflexivity.
  - simpl. rewrite (Hp a (or_introl eq_refl)).
    assert (Ed : (if isdir d a then shutil_rmtree d a else os_remove d a)
                 = remove_entry d a) by (destruct (isdir d a); reflexivity).
    rewrite Ed, IH by (intros g Hg; apply Hp; right; exact Hg).
    rewrite remove_entry_remove_all. unfold log_message.
    rewrite <- app_assoc. reflexivity.
Qed.

Lemma remove_old_all (olds : list string) (d : directory) (lg : list string) :
  (forall g, In g olds -> faults g = false) ->
  remove_old faults olds d lg
  = (remove_all d olds, lg ++ cleanup_lines olds, None).
Proof.
  intro H. rewrite <- (app_nil_r olds) at 1.
  rewrite remove_old_prefix by exact H. reflexivity.
Qed.

Lemma remove_old_raises (pre : list string) (f : string) (post : list string)
    (d : directory) (lg : list string) :
  (forall g, In g pre -> faults g = false) ->
  faults f = true ->
  remove_old faults (pre ++ f :: post) d lg
  = (remove_all d pre, lg ++ cleanup_lines pre, Some OSError).
Proof.
  intros Hp Hf. rewrite remove_old_prefix by exact Hp.
  simpl. rewrite Hf. reflexivity.
Qed.

End Sweep.

Lemma backup_items_perm (d : directory) :
  Permutation (backup_items d) (artifacts d).
Proof. apply sorted_desc_perm. Qed.

Lemma artifacts_NoDup (d : directory) :
  NoDup (listdir d) -> NoDup (artifacts d).
Proof. apply NoDup_filter. Qed.

(** Removing the tail of the sorted list leaves its head. *)
Lemma artifacts_after_sweep (d : directory) (n : nat) :
  NoDup (listdir d) ->
  Permutation (artifacts (remove_all d (skipn n (backup_items d))))
              (firstn n (backup_items d)).
Proof.
  intro Hn. rewrite artifacts_remove_all.
  set (q := fun f => negb (named_in (skipn n (backup_items d)) f)).
  apply perm_trans with (filter q (backup_items d)).
  - apply filter_perm. apply Permutation_sym. apply backup_items_perm.
  - assert (Hi : NoDup (firstn n (backup_items d) ++ skipn n (backup_items d))).
    { rewrite firstn_skipn.
      apply (Permutation_NoDup (Permutation_sym (backup_items_perm d))).
      apply artifacts_NoDup. exact Hn. }
    rewrite <- (firstn_skipn n (backup_items d)) at 1.
    rewrite filter_app, filter_all, filter_none.
    + rewrite app_nil_r. apply Permutation_refl.
    + intros f Hf. unfold q. apply negb_false_iff. apply named_in_true. exact Hf.
    + intros f Hf. unfold q. apply negb_true_iff. apply named_in_false.
      apply (NoDup_app_disjoint _ _ Hi f Hf).
Qed.

(** C2. With a positive retention count [N], names that are unique in the
    directory and no deletion raising, one [cleanup_backups] returns
    normally, having removed and logged the artifacts behind the first [N]
    of the list sorted by modification time, newest first.  The directory
    then holds exactly [min N total] matching artifacts, those first [N],
    and every artifact kept is at least as recent as every artifact
    removed. *)
Theorem retention_invariant (h : BackupHandler) (d : directory)
    (lg : list string) (faults : string -> bool) :
  let n := Z.to_nat (buffer_size h) in
  let gone := skipn n (backup_items d) in
  let d' := remove_all d gone in
  0 < buffer_size h ->
  NoDup (listdir d) ->
  (forall f, In f gone -> faults f = false) ->
  cleanup_backups h d lg faults = (d', lg ++ cleanup_lines gone, None) /\
  List.length (artifacts d') = Nat.min n (List.length (artifacts d)) /\
  Permutation (artifacts d') (firstn n (backup_items d)) /\
  StronglySorted (key_ge (getmtime d)) (backup_items d) /\
  (forall kept removed,
     In kept (artifacts d') -> In removed (artifacts d) ->
     ~ In removed (artifacts d') ->
     getmtime d removed <= getmtime d kept).
Proof.
  intros n gone d' HN Hnd Hok.
  pose proof (artifacts_after_sweep d n Hnd) as Hperm.
  fold gone d' in Hperm.
  assert (Hsorted : StronglySorted (key_ge (getmtime d)) (backup_items d))
    by apply sorted_desc_sorted.
  split; [|split; [|split; [|split]]].
  - unfold cleanup_backups.
    destruct (Z.leb_spec (buffer_size h) 0) as [Hle | _]; [lia|].
    apply remove_old_all. exact Hok.
  - rewrite (Permutation_length Hperm), length_firstn.
    rewrite (Permutation_length (backup_items_perm d)). reflexivity.
  - exact Hperm.
  - exact Hsorted.
  - intros kept removed Hk Hg Hng.
    apply (Permutation_in _ Hperm) in Hk.
    assert (Hgs : In removed gone).
    { apply (Permutation_in _ (Permutation_sym (backup_items_perm d))) in Hg.
      rewrite <- (firstn_skipn n (backup_items d)) in Hg.
      apply in_app_or in Hg. destruct Hg as [Hg | Hg]; [|exact Hg].
      exfalso. apply Hng.
      apply (Permutation_in _ (Permutation_sym Hperm)). exact Hg. }
    rewrite <- (firstn_skipn n (backup_items d)) in Hsorted.
    apply (sorted_split (getmtime d) _ _ Hsorted kept removed Hk Hgs).
Qed.

Lemma cleanup_backups_unlimited (h : BackupHandler) (d : directory)
    (lg : list string) (faults : string -> bool) :
  buffer_size h <= 0 ->
  cleanup_backups h d lg faults = (d, lg, None).
Proof.
  intro H. unfold cleanup_backups.
  replace (buffer_size h <=? 0) with true by (symmetry; apply Z.leb_le; exact H).
  reflexivity.
Qed.

(** C7. With a retention count of 0 or less [cleanup_backups] returns at
    once: the directory and the log are what they were, whatever the
    directory holds. *)
Theorem unlimited_retention (h : BackupHandler) (d : directory)
    (lg : list string) (faults : string -> bool) :
  buffer_size h <= 0 ->
  cleanup_backups h d lg faults = (d, lg, None).
Proof.
  intro H. unfold cleanup_backups.
  destruct (Z.leb_spec (buffer_size h) 0) as [_ | Hgt].
  - reflexivity.
  - lia.
Qed.

(** C6 (as the code has it). [cleanup_backups] orders the artifacts by
    modification time, newest first, and artifacts with the same
    modification time stay in the order of the directory listing. *)
Theorem backup_items_order (d : directory) :
  StronglySorted (key_ge (getmtime d)) (backup_items d)
  /\ Permutation (backup_items d) (artifacts d)
  /\ (forall t,
        filter (fun f => getmtime d f =? t) (backup_items d)
        = filter (fun f => getmtime d f =? t) (artifacts d)).
Proof.
  split; [|split].
  - apply sorted_desc_sorted.
  - apply backup_items_perm.
  - intro t. apply sorted_desc_stable.
Qed.

(** C5 (as the code has it). The excess artifacts are deleted from the
    newest to the oldest; the first deletion that raises ends
    [cleanup_backups] with that exception: what was removed before stays
    removed and logged, the artifact that failed and every excess artifact
    behind it are still in the directory. *)
Theorem cleanup_stops_at_first_failure (h : BackupHandler) (d : directory)
    (lg : list string) (faults : string -> bool)
    (pre : list string) (f : string) (post : list string) :
  0 < buffer_size h ->
  NoDup (listdir d) ->
  skipn (Z.to_nat (buffer_size h)) (backup_items d) = pre ++ f :: post ->
  (forall g, In g pre -> faults g = false) ->
  faults f = true ->
  cleanup_backups h d lg faults
    = (remove_all d pre, lg ++ cleanup_lines pre, Some OSError)
  /\ (forall g, In g (f :: post) -> In g (artifacts (remove_all d pre)))
  /\ (forall g, In g pre -> ~ In g (listdir (remove_all d pre))).
Proof.
  intros HN Hnd Hsplit Hpre Hf. split; [|split].
  - unfold cleanup_backups.
    replace (buffer_size h <=? 0) with false by (symmetry; apply Z.leb_gt; exact HN).
    rewrite Hsplit. apply remove_old_raises; assumption.
  - intros g Hg. rewrite artifacts_remove_all. apply filter_In. split.
    + apply (Permutation_in _ (backup_items_perm d)).
      rewrite <- (firstn_skipn (Z.to_nat (buffer_size h)) (backup_items d)), Hsplit.
      apply in_or_app. right. apply in_or_app. right. exact Hg.
    + apply negb_true_iff. apply named_in_false. intro Hgp.
      assert (Hi : NoDup (pre ++ f :: post)).
      { rewrite <- Hsplit.
        assert (Hall : NoDup (firstn (Z.to_nat (buffer_size h)) (backup_items d)
                              ++ skipn (Z.to_nat (buffer_size h)) (backup_items d))).
        { rewrite firstn_skipn.
          apply (Permutation_NoDup (Permutation_sym (backup_items_perm d))).
          apply artifacts_NoDup. exact Hnd. }
        apply NoDup_app_remove_l in Hall. exact Hall. }
      apply (NoDup_app_disjoint _ _ Hi g Hgp Hg).
  - intros g Hg. rewrite listdir_remove_all. rewrite filter_In.
    intros [_ Hq]. apply negb_true_iff in Hq. apply named_in_false in Hq.
    contradiction.
Qed.

Lemma retention_invariant_witness :
  let h := keep 2 true in
  let d := [zip_entry "a.zip" 10; log_file; mkEntry "data_1" true 20 tree_v1;
            zip_entry "c.zip" 30; zip_entry "d.zip" 5] in
  0 < buffer_size h /\
  NoDup (listdir d) /\
  (forall f, In f (skipn 2 (backup_items d)) -> no_faults f = false) /\
  cleanup_backups h d [] no_faults
    = ([log_file; mkEntry "data_1" true 20 tree_v1; zip_entry "c.zip" 30],
       ["[CLEANUP] Removed old backup: a.zip"; "[CLEANUP] Removed old backup: d.zip"],
       None) /\
  List.length (artifacts (remove_all d (skipn 2 (backup_items d)))) = 2%nat.
Proof.
  intros h d.
  assert (Hn : NoDup (listdir d)) by distinct_names.
  split; [simpl; lia|].
  split; [exact Hn|].
  split; [reflexivity|].
  destruct (retention_invariant h d [] no_faults) as (H1 & H2 & _).
  - simpl. lia.
  - exact Hn.
  - reflexivity.
  - split; [exact H1 | exact H2].
Defined.

Lemma unlimited_retention_witness :
  buffer_size (keep 0 true) <= 0 /\
  buffer_size (keep (-1) false) <= 0 /\
  cleanup_backups (keep 0 true) three_zips [] no_faults = (three_zips, [], None) /\
  cleanup_backups (keep (-1) false) three_zips [] b_is_locked = (three_zips, [], None).
Proof.
  split; [simpl; lia|].
  split; [simpl; lia|].
  split.
  - apply (unlimited_retention (keep 0 true) three_zips [] no_faults). simpl. lia.
  - apply (unlimited_retention (keep (-1) false) three_zips [] b_is_locked). simpl. lia.
Defined.

(** C6 fails as stated: two archives with the same modification time are
    kept in listing order, here by ascending name, and which of the two
    survives depends on the order in which the directory lists them. *)
Lemma tie_not_broken_by_name :
  getmtime tied_ab "a.zip" = getmtime tied_ab "b.zip" /\
  String.ltb "a.zip" "b.zip" = true /\
  backup_items tied_ab = ["a.zip"; "b.zip"] /\
  backup_items tied_ba = ["b.zip"; "a.zip"] /\
  Permutation tied_ab tied_ba /\
  listdir (fst (fst (cleanup_backups (keep 1 true) tied_ab [] no_faults))) = ["a.zip"] /\
  listdir (fst (fst (cleanup_backups (keep 1 true) tied_ba [] no_faults))) = ["b.zip"].
Proof.
  repeat split; try reflexivity.
  apply perm_swap.
Qed.

Lemma cleanup_stops_at_first_failure_witness :
  let h := keep 1 true in
  0 < buffer_size h /\
  NoDup (listdir four_zips) /\
  skipn (Z.to_nat (buffer_size h)) (backup_items four_zips)
    = ["x.zip"] ++ "y.zip" :: ["z.zip"] /\
  y_is_locked "x.zip" = false /\
  y_is_locked "y.zip" = true /\
  cleanup_backups h four_zips [] y_is_locked
    = ([zip_entry "w.zip" 40; zip_entry "y.zip" 20; zip_entry "z.zip" 10],
       ["[CLEANUP] Removed old backup: x.zip"], Some OSError).
Proof.
  intro h.
  assert (Hn : NoDup (listdir four_zips)) by distinct_names.
  split; [simpl; lia|].
  split; [exact Hn|].
  split; [reflexivity|].
  split; [reflexivity|].
  split; [reflexivity|].
  apply (cleanup_stops_at_first_failure h four_zips [] y_is_locked
           ["x.zip"] "y.zip" ["z.zip"]).
  - simpl. lia.
  - exact Hn.
  - reflexivity.
  - intros g [<- | []]. reflexivity.
  - reflexivity.
Defined.

(** C5 fails as stated: the deletion of [b.zip] raises; [c.zip], which is
    in excess too and could be deleted, is not attempted, and the sweep
    ends with the bare exception. *)
Lemma later_deletions_not_attempted :
  skipn 1 (backup_items three_zips) = ["b.zip"; "c.zip"] /\
  b_is_locked "c.zip" = false /\
  cleanup_backups (keep 1 true) three_zips [] b_is_locked
    = (three_zips, [], Some OSError) /\
  In "c.zip" (listdir (fst (fst (cleanup_backups (keep 1 true) three_zips [] b_is_locked)))).
Proof.
  repeat split. simpl. auto.
Qed.

(** ** What the sweep leaves alone *)

Lemma swept_incl (faults : string -> bool) (olds : list string) :
  forall f, In f (fst (swept faults olds)) -> In f olds.
Proof.
  induction olds as [|a olds IH]; intros f H; simpl in H.
  - destruct H.
  - destruct (faults a); simpl in H; [destruct H|].
    destruct H as [<- | H]; [left; reflexivity | right; apply IH; exact H].
Qed.

(** The loop, whatever the deletions do. *)
Lemma remove_old_swept (faults : string -> bool) (olds : list string) :
  forall (d : directory) (lg : list string),
    remove_old faults olds d lg
    = (remove_all d (fst (swept faults olds)),
       lg ++ cleanup_lines (fst (swept faults olds)),
       snd (swept faults olds)).
Proof.
  induction olds as [|a olds IH]; intros d lg; simpl.
  - rewrite remove_all_nil, app_nil_r. reflexivity.
  - destruct (faults a); simpl.
    + rewrite remove_all_nil, app_nil_r. reflexivity.
    + assert (Ed : (if isdir d a then shutil_rmtree d a else os_remove d a)
                   = remove_entry d a) by (destruct (isdir d a); reflexivity).
      rewrite Ed, IH, remove_entry_remove_all. unfold log_message.
      rewrite <- app_assoc. reflexivity.
Qed.

(** [cleanup_backups] as a whole. *)
Lemma cleanup_backups_swept (h : BackupHandler) (d : directory)
    (lg : list string) (faults : string -> bool) :
  0 < buffer_size h ->
  let p := swept faults (skipn (Z.to_nat (buffer_size h)) (backup_items d)) in
  cleanup_backups h d lg faults
  = (remove_all d (fst p), lg ++ cleanup_lines (fst p), snd p).
Proof.
  intros HN p. unfold cleanup_backups.
  replace (buffer_size h <=? 0) with false by (symmetry; apply Z.leb_gt; exact HN).
  apply remove_old_swept.
Qed.

Lemma in_skipn {A : Type} (n : nat) (l : list A) (x : A) :
  In x (skipn n l) -> In x l.
Proof.
  intro H. rewrite <- (firstn_skipn n l). apply in_or_app. right. exact H.
Qed.

Lemma backup_items_In (d : directory) (f : string) :
  In f (backup_items d) <-> In f (listdir d) /\ is_backup d f = true.
Proof.
  rewrite <- filter_In. fold (artifacts d). split; intro H.
  - apply (Permutation_in _ (backup_items_perm d) H).
  - apply (Permutation_in _ (Permutation_sym (backup_items_perm d)) H).
Qed.

(** A child that does not match survives the sweep. *)
Lemma cleanup_keeps_other_entries (h : BackupHandler) (d : directory)
    (lg : list string) (faults : string -> bool) (e : entry) :
  In e d -> is_backup d (name e) = false ->
  In e (fst (fst (cleanup_backups h d lg faults))).
Proof.
  intros He Hm.
  destruct (Z.leb_spec (buffer_size h) 0) as [HN | HN].
  - rewrite cleanup_backups_unlimited by exact HN. exact He.
  - rewrite cleanup_backups_swept by exact HN. simpl.
    unfold remove_all. apply filter_In. split; [exact He|].
    apply negb_true_iff. apply named_in_false. intro Hin.
    apply swept_incl, in_skipn, backup_items_In in Hin.
    destruct Hin as [_ Hin]. congruence.
Qed.

Section OtherEntry.

Variables (d1 d2 : directory) (e : entry).
Hypothesis fresh_name : ~ In (name e) (listdir (d1 ++ d2)).

Lemma find_entry_other (f : string) :
  f <> name e ->
  find_entry (d1 ++ e :: d2) f = find_entry (d1 ++ d2) f.
Proof.
  intro Hf. unfold find_entry. clear fresh_name.
  induction d1 as [|x l IH]; simpl.
  - replace (String.eqb (name e) f) with false; [reflexivity|].
    symmetry. apply String.eqb_neq. congruence.
  - destruct (String.eqb (name x) f); [reflexivity | exact IH].
Qed.

Lemma find_entry_self : find_entry (d1 ++ e :: d2) (name e) = Some e.
Proof.
  unfold find_entry.
  assert (H1 : ~ In (name e) (listdir d1)).
  { intro H. apply fresh_name. unfold listdir in *. rewrite map_app.
    apply in_or_app. left. exact H. }
  clear fresh_name. induction d1 as [|x l IH]; simpl.
  - rewrite String.eqb_refl. reflexivity.
  - destruct (String.eqb (name x) (name e)) eqn:E.
    + apply String.eqb_eq in E. exfalso. apply H1. left. exact E.
    + apply IH. intro H. apply H1. right. exact H.
Qed.

Hypothesis not_zip : endswith (name e) ".zip" = false.
Hypothesis not_dir : is_dir e = false.

Lemma other_entry_no_backup : is_backup (d1 ++ e :: d2) (name e) = false.
Proof.
  unfold is_backup, isdir. rewrite not_zip, find_entry_self. exact not_dir.
Qed.

Lemma artifacts_other_entry : artifacts (d1 ++ e :: d2) = artifacts (d1 ++ d2).
Proof.
  unfold artifacts, listdir. rewrite !map_app, !filter_app. simpl.
  rewrite other_entry_no_backup.
  assert (Hext : forall l, incl l (d1 ++ d2) ->
            filter (is_backup (d1 ++ e :: d2)) (map name l)
            = filter (is_backup (d1 ++ d2)) (map name l)).
  { intros l Hl. apply filter_ext_in. intros f Hf.
    unfold is_backup, isdir. rewrite find_entry_other; [reflexivity|].
    intros ->. apply fresh_name. unfold listdir.
    apply in_map_iff in Hf. destruct Hf as (x & Hx & Hin).
    apply in_map_iff. exists x. split; [exact Hx | apply Hl; exact Hin]. }
  rewrite (Hext d1), (Hext d2); [reflexivity | |].
  - apply incl_appr, incl_refl.
  - apply incl_appl, incl_refl.
Qed.

Lemma backup_items_other_entry :
  backup_items (d1 ++ e :: d2) = backup_items (d1 ++ d2).
Proof.
  unfold backup_items. fold (artifacts (d1 ++ e :: d2)) (artifacts (d1 ++ d2)).
  rewrite artifacts_other_entry.
  apply sorted_desc_ext. intros f Hf.
  unfold getmtime. rewrite find_entry_other; [reflexivity|].
  intros ->. apply fresh_name.
  unfold artifacts in Hf. apply filter_In in Hf. apply Hf.
Qed.

End OtherEntry.

(** C9 (as the code has it). [cleanup_backups] enumerates exactly the
    direct children whose name ends in [.zip] or that are directories; it
    tests nothing else of a name.  A regular file [e] whose name does not
    end in [.zip], such as the log file, is not enumerated, does not change
    the list of artifacts the retention count is applied to, is still in
    the directory afterwards, and changes neither what the sweep logs nor
    how it ends. *)
Theorem cleanup_ignores_other_entries (h : BackupHandler) (d1 d2 : directory)
    (e : entry) (lg : list string) (faults : string -> bool) :
  ~ In (name e) (listdir (d1 ++ d2)) ->
  endswith (name e) ".zip" = false ->
  is_dir e = false ->
  let d := d1 ++ e :: d2 in
  (forall f, In f (backup_items d) <-> In f (listdir d) /\ is_backup d f = true)
  /\ ~ In (name e) (backup_items d)
  /\ backup_items d = backup_items (d1 ++ d2)
  /\ In e (fst (fst (cleanup_backups h d lg faults)))
  /\ snd (fst (cleanup_backups h d lg faults))
     = snd (fst (cleanup_backups h (d1 ++ d2) lg faults))
  /\ snd (cleanup_backups h d lg faults)
     = snd (cleanup_backups h (d1 ++ d2) lg faults).
Proof.
  intros Hfresh Hzip Hdir d.
  pose proof (other_entry_no_backup d1 d2 e Hfresh Hzip Hdir) as Hno.
  pose proof (backup_items_other_entry d1 d2 e Hfresh Hzip Hdir) as Hitems.
  fold d in Hno, Hitems.
  assert (Hout : forall d0 d0', backup_items d0 = backup_items d0' ->
            snd (fst (cleanup_backups h d0 lg faults))
              = snd (fst (cleanup_backups h d0' lg faults))
            /\ snd (cleanup_backups h d0 lg faults)
              = snd (cleanup_backups h d0' lg faults)).
  { intros d0 d0' E.
    destruct (Z.leb_spec (buffer_size h) 0) as [HN | HN].
    - rewrite !cleanup_backups_unlimited by exact HN. split; reflexivity.
    - rewrite !cleanup_backups_swept by exact HN. simpl. rewrite E.
      split; reflexivity. }
  split; [|split; [|split; [|split]]].
  - intro f. apply backup_items_In.
  - intro H. apply backup_items_In in H. destruct H as [_ H]. congruence.
  - exact Hitems.
  - apply cleanup_keeps_other_entries; [|exact Hno].
    unfold d. apply in_or_app. right. left. reflexivity.
  - apply (Hout d (d1 ++ d2) Hitems).
Qed.

Lemma cleanup_ignores_other_entries_witness :
  let d1 := [zip_entry "a.zip" 30] in
  let d2 := [zip_entry "b.zip" 20; zip_entry "c.zip" 10] in
  ~ In (name log_file) (listdir (d1 ++ d2)) /\
  endswith (name log_file) ".zip" = false /\
  is_dir log_file = false /\
  ~ In "backup_log.txt" (backup_items (d1 ++ log_file :: d2)) /\
  In log_file (fst (fst (cleanup_backups (keep 1 true) (d1 ++ log_file :: d2) [] no_faults))).
Proof.
  intros d1 d2.
  assert (Hf : ~ In (name log_file) (listdir (d1 ++ d2))) by distinct_names.
  split; [exact Hf|].
  split; [reflexivity|].
  split; [reflexivity|].
  destruct (cleanup_ignores_other_entries (keep 1 true) d1 d2 log_file [] no_faults
              Hf eq_refl eq_refl) as (_ & H2 & _ & H4 & _).
  split; [exact H2 | exact H4].
Defined.

(** C9 fails as stated: a directory and an archive that do not follow the
    naming convention of the backups are enumerated, counted against the
    retention count and deleted; and a foreign directory that is newer than
    the only backup takes its place, so that the backup is deleted. *)
Lemma foreign_entries_swept :
  let h := keep 1 true in
  let d := [holiday_photos 5; thesis_zip; log_file; real_backup] in
  follows_convention h (name (holiday_photos 5)) = false /\
  follows_convention h (name thesis_zip) = false /\
  follows_convention h (name real_backup) = true /\
  backup_items d = ["data_2024-01-01_00-00-07.zip"; "holiday_photos"; "thesis.zip"] /\
  cleanup_backups h d [] no_faults
    = ([log_file; real_backup],
       ["[CLEANUP] Removed old backup: holiday_photos";
        "[CLEANUP] Removed old backup: thesis.zip"], None) /\
  cleanup_backups h [holiday_photos 99; real_backup] [] no_faults
    = ([holiday_photos 99],
       ["[CLEANUP] Removed old backup: data_2024-01-01_00-00-07.zip"], None).
Proof.
  repeat split.
Qed.

(** ** Name collisions *)

(** C3 (as the code has it). In copy mode a cycle whose backup name is
    already taken raises [FileExistsError] before anything is written: the
    directory, with the artifact that was there, the log and the handler
    are what they were, and the exception leaves the polling loop. *)
Theorem copy_collision_fails (w : world) (now : Z) (env : cycle_env)
    (e0 : entry) (rest : list op) :
  use_zip (handler w) = false ->
  find_entry (dir w) (backup_name (handler w) env) = Some e0 ->
  create_backup (handler w) (dir w) (log w) env
    = (handler w, dir w, log w, Some FileExistsError)
  /\ (should_backup (handler w) now = true ->
      start_loop w (Tick now env :: rest) = (w, Raised FileExistsError)).
Proof.
  intros Hz Hf.
  assert (Hc : create_backup (handler w) (dir w) (log w) env
               = (handler w, dir w, log w, Some FileExistsError)).
  { apply (create_backup_raises _ _ _ _ (dir w) (log w)).
    unfold write_snapshot, copy_tree. rewrite Hz, Hf. reflexivity. }
  split; [exact Hc|].
  intro Hs. simpl. unfold poll. rewrite Hs, Hc. destruct w; reflexivity.
Qed.

Lemma copy_collision_fails_witness :
  let stamp := "2024-01-01_00-00-07" in
  let first := create_backup (set_last_change_time copy_handler 1) [] []
                 (good_cycle stamp tree_v1 8) in
  let w := mkWorld (fst (fst (fst first))) (snd (fst (fst first))) (snd (fst first)) in
  let env := good_cycle stamp tree_v2 9 in
  let e0 := mkEntry "data_2024-01-01_00-00-07" true 8 tree_v1 in
  use_zip (handler w) = false /\
  find_entry (dir w) (backup_name (handler w) env) = Some e0 /\
  create_backup (handler w) (dir w) (log w) env
    = (handler w, dir w, log w, Some FileExistsError).
Proof.
  intros stamp first w env e0.
  split; [reflexivity|].
  split; [reflexivity|].
  apply (copy_collision_fails w 9 env e0 []); reflexivity.
Defined.

(** C3 fails as stated: in archive mode two cycles with the same stamp
    both return normally; the second replaces the archive of the first,
    and no error is raised or logged. *)
Lemma zip_collision_overwrites :
  let stamp := "2024-01-01_00-00-07" in
  let first := create_backup zip_handler [] [] (good_cycle stamp tree_v1 8) in
  let second := create_backup (fst (fst (fst first))) (snd (fst (fst first)))
                  (snd (fst first)) (good_cycle stamp tree_v2 9) in
  snd first = None /\
  snd (fst (fst first)) = [mkEntry "data_2024-01-01_00-00-07.zip" false 8 tree_v1] /\
  snd second = None /\
  snd (fst (fst second)) = [mkEntry "data_2024-01-01_00-00-07.zip" false 9 tree_v2] /\
  snd (fst second)
    = ["[BACKUP] Created ZIP: /srv/AutoBackups/data_2024-01-01_00-00-07.zip";
       "[BACKUP] Created ZIP: /srv/AutoBackups/data_2024-01-01_00-00-07.zip"].
Proof.
  repeat split.
Qed.

(** ** A run of the whole engine *)

(** Cooldown 5, two backups kept.  A burst of changes at 100, 101 and 102
    is not backed up at 106; it is at 107.  A change at 120 gives a second
    backup at 125, one at 145 a third at 150, and the sweep of the third
    cycle removes the backup of 107. *)
Example burst_then_rotation :
  let c (stamp : string) (t : Z) := good_cycle stamp tree_v1 t in
  let ops :=
    [FsEvent file_event 100; FsEvent file_event 101; FsEvent file_event 102;
     Tick 106 (c "2024-01-01_00-01-46" 106);
     Tick 107 (c "2024-01-01_00-01-47" 107);
     Tick 108 (c "2024-01-01_00-01-48" 108);
     FsEvent file_event 120;
     Tick 125 (c "2024-01-01_00-02-05" 125);
     FsEvent directory_event 130;
     Tick 140 (c "2024-01-01_00-02-20" 140);
     FsEvent file_event 145;
     Tick 150 (c "2024-01-01_00-02-30" 150)] in
  let w := fst (start_loop (fresh (keep 2 true)) ops) in
  listdir (dir w) = ["data_2024-01-01_00-02-05.zip"; "data_2024-01-01_00-02-30.zip"]
  /\ log w =
     ["[BACKUP] Created ZIP: /srv/AutoBackups/data_2024-01-01_00-01-47.zip";
      "[BACKUP] Created ZIP: /srv/AutoBackups/data_2024-01-01_00-02-05.zip";
      "[BACKUP] Created ZIP: /srv/AutoBackups/data_2024-01-01_00-02-30.zip";
      "[CLEANUP] Removed old backup: data_2024-01-01_00-01-47.zip"]
  /\ last_backup_time (handler w) = 150.
Proof. repeat split. Qed.

(** * Further properties of the code *)

(** ** Strings *)

Lemma length_append (p s : string) :
  String.length (p +++ s) = (String.length p + String.length s)%nat.
Proof.
  induction p as [|c p IH]; simpl; [reflexivity | rewrite IH; reflexivity].
Qed.

Lemma substring_whole (s : string) :
  substring 0 (String.length s) s = s.
Proof.
  induction s as [|c s IH]; simpl; [reflexivity | rewrite IH; reflexivity].
Qed.

Lemma substring_after (p s : string) :
  substring (String.length p) (String.length s) (p +++ s) = s.
Proof.
  induction p as [|c p IH]; simpl.
  - apply substring_whole.
  - exact IH.
Qed.

Lemma substring_split (s : string) :
  forall n, (n <= String.length s)%nat ->
    s = substring 0 n s +++ substring n (String.length s - n) s.
Proof.
  induction s as [|c s IH]; intros n Hn.
  - destruct n; simpl in *; [reflexivity | lia].
  - destruct n as [|n].
    + simpl. rewrite substring_whole. reflexivity.
    + simpl in Hn. simpl. f_equal. apply IH. lia.
Qed.

(** X1. [endswith] is the suffix test: the string is some text followed by
    the suffix. *)
Theorem endswith_iff (s suffix : string) :
  endswith s suffix = true <-> exists p, s = p +++ suffix.
Proof.
  unfold endswith. rewrite andb_true_iff, Nat.leb_le, String.eqb_eq. split.
  - intros [Hle Hsub].
    exists (substring 0 (String.length s - String.length suffix) s).
    pose proof (substring_split s (String.length s - String.length suffix)) as Hsplit.
    replace (String.length s - (String.length s - String.length suffix))%nat
      with (String.length suffix) in Hsplit by lia.
    rewrite Hsub in Hsplit. apply Hsplit. lia.
  - intros [p ->]. rewrite length_append. split; [lia|].
    replace (String.length p + String.length suffix - String.length suffix)%nat
      with (String.length p) by lia.
    apply substring_after.
Qed.

Lemma basename_from_app (p : string) :
  forall acc, no_slash p = true -> basename_from acc p = acc +++ p.
Proof.
  induction p as [|c p IH]; intros acc H; simpl.
  - induction acc as [|a acc IHa]; simpl; [reflexivity | rewrite <- IHa; reflexivity].
  - simpl in H. apply andb_true_iff in H. destruct H as [Hc Hp].
    apply negb_true_iff in Hc. rewrite Hc, IH by exact Hp.
    clear. induction acc as [|a acc IHa]; simpl; [reflexivity | rewrite IHa; reflexivity].
Qed.

Lemma basename_from_slash (head : string) :
  forall acc tail, basename_from acc (head +++ String "/" tail) = basename_from EmptyString tail.
Proof.
  induction head as [|c head IH]; intros acc tail; simpl.
  - reflexivity.
  - destruct (Ascii.eqb c "/"); apply IH.
Qed.

Lemma basename_from_no_slash (p : string) :
  forall acc, no_slash acc = true -> no_slash (basename_from acc p) = true.
Proof.
  induction p as [|c p IH]; intros acc Hacc; simpl.
  - exact Hacc.
  - destruct (Ascii.eqb c "/") eqn:E.
    + apply IH. reflexivity.
    + apply IH. clear IH. induction acc as [|a acc IHa]; simpl.
      * rewrite E. reflexivity.
      * simpl in Hacc. apply andb_true_iff in Hacc. destruct Hacc as [Ha Hacc].
        rewrite Ha. simpl. apply IHa. exact Hacc.
Qed.

(** X2. [basename] is the last component of a path: it has no slash, and
    for a path that ends in a slash-free component after a slash it is that
    component (the empty string when the path ends in a slash). *)
Theorem basename_last_component (head last : string) :
  no_slash last = true ->
  basename (head +++ String "/" last) = last
  /\ basename last = last
  /\ forall p, no_slash (basename p) = true.
Proof.
  intro H. unfold basename. split; [|split].
  - rewrite basename_from_slash. apply (basename_from_app last EmptyString H).
  - apply (basename_from_app last EmptyString H).
  - intro p. apply basename_from_no_slash. reflexivity.
Qed.

Lemma basename_last_component_witness :
  no_slash "data" = true /\
  basename ("/srv/backups" +++ String "/" "data") = "data".
Proof.
  split; [reflexivity|].
  apply (basename_last_component "/srv/backups" "data"). reflexivity.
Defined.

(** ** The tracker after a backup *)

(** X3. After a cycle whose write completed, no backup is due at any time;
    one becomes due again only through a file event stamped strictly after
    the completion of that backup, and then once the cooldown has passed. *)
Theorem quiet_after_backup (h : BackupHandler) (d : directory) (lg : list string)
    (env : cycle_env) :
  snd (write_snapshot h d lg env) = None ->
  last_change_time h <= t_done env ->
  let h' := fst (fst (fst (create_backup h d lg env))) in
  (forall now, should_backup h' now = false)
  /\ (forall t now,
        should_backup (on_any_event h' (mkEvent false) t) now = true
        <-> t_done env < t /\ cooldown h <= now - t).
Proof.
  intros Hw Hc h'.
  assert (E : h' = set_last_backup_time h (t_done env)).
  { destruct (create_backup_handler h d lg env) as [[_ [e He]] | [E _]].
    - congruence.
    - exact E. }
  rewrite E. split.
  - intro now. apply not_true_is_false. rewrite should_backup_spec. simpl. lia.
  - intros t now. rewrite should_backup_spec. simpl. reflexivity.
Qed.

Lemma quiet_after_backup_witness :
  let h := set_last_change_time zip_handler 3 in
  let env := good_cycle "2024-01-01_00-00-09" tree_v1 10 in
  snd (write_snapshot h [] [] env) = None /\
  last_change_time h <= t_done env /\
  (forall now, should_backup (fst (fst (fst (create_backup h [] [] env)))) now = false).
Proof.
  intros h env.
  split; [reflexivity|].
  split; [simpl; lia|].
  apply (quiet_after_backup h [] [] env); [reflexivity | simpl; lia].
Defined.

(** X4. One change, one backup: after a poll that made a backup, a run
    that sees no further file event changes nothing, however many polls it
    makes. *)
Theorem one_backup_per_change (w : world) (now : Z) (env : cycle_env) (ops : list op) :
  should_backup (handler w) now = true ->
  last_change_time (handler w) <= t_done env ->
  snd (poll w now env) = Running ->
  forallb no_file_event ops = true ->
  fst (start_loop w (Tick now env :: ops)) = fst (poll w now env).
Proof.
  intros Hs Hc Hr Hops.
  simpl start_loop.
  destruct (poll w now env) as [w' st] eqn:Hp. simpl in Hr. subst st.
  simpl fst. apply start_loop_no_file_event; [|exact Hops].
  unfold poll in Hp. rewrite Hs in Hp.
  pose proof (create_backup_handler (handler w) (dir w) (log w) env) as Hh.
  destruct (write_snapshot (handler w) (dir w) (log w) env) as [[d1 lg1] [e|]] eqn:Hw.
  - rewrite (create_backup_raises _ _ _ _ d1 lg1 e Hw) in Hp. inversion Hp.
  - destruct (create_backup (handler w) (dir w) (log w) env) as [[[h' d'] lg'] r].
    simpl in Hh. destruct Hh as [[_ [e He]] | [E _]]; [discriminate|].
    destruct r; inversion Hp; subst. simpl. lia.
Qed.

Lemma one_backup_per_change_witness :
  let w := mkWorld (set_last_change_time zip_handler 3) [] [] in
  let env := good_cycle "2024-01-01_00-00-09" tree_v1 10 in
  let ops := [Tick 11 env; FsEvent directory_event 12; Tick 30 env] in
  should_backup (handler w) 9 = true /\
  last_change_time (handler w) <= t_done env /\
  snd (poll w 9 env) = Running /\
  forallb no_file_event ops = true /\
  fst (start_loop w (Tick 9 env :: ops)) = fst (poll w 9 env).
Proof.
  intros w env ops.
  split; [reflexivity|].
  split; [simpl; lia|].
  split; [reflexivity|].
  split; [reflexivity|].
  apply (one_backup_per_change w 9 env ops); try reflexivity. simpl. lia.
Defined.

(** ** What a run keeps of the backup directory and of the log *)

Lemma find_entry_none (d : directory) (f : string) :
  find_entry d f = None <-> ~ In f (listdir d).
Proof.
  unfold find_entry, listdir. induction d as [|e d IH]; simpl.
  - tauto.
  - destruct (String.eqb (name e) f) eqn:E.
    + apply String.eqb_eq in E. split; [discriminate | intro H; exfalso; apply H; auto].
    + apply String.eqb_neq in E. rewrite IH. tauto.
Qed.

Lemma find_entry_unique (d : directory) (e : entry) :
  NoDup (listdir d) -> In e d -> find_entry d (name e) = Some e.
Proof.
  unfold find_entry, listdir. induction d as [|x d IH]; intros Hn He.
  - destruct He.
  - simpl in Hn. inversion Hn as [|? ? Hx Hd]; subst. simpl.
    destruct He as [-> | He].
    + rewrite String.eqb_refl. reflexivity.
    + destruct (String.eqb (name x) (name e)) eqn:E.
      * apply String.eqb_eq in E. exfalso. apply Hx. rewrite E.
        apply in_map. exact He.
      * apply IH; assumption.
Qed.

Lemma write_file_names (d : directory) (f : string) (t : Z) (c : content) (g : string) :
  In g (listdir (write_file d f t c)) <-> In g (listdir d) \/ g = f.
Proof.
  unfold listdir. induction d as [|e d IH]; simpl.
  - intuition.
  - destruct (String.eqb (name e) f) eqn:E; simpl.
    + apply String.eqb_eq in E. rewrite E. intuition.
    + rewrite IH. intuition.
Qed.

Lemma write_file_NoDup (d : directory) (f : string) (t : Z) (c : content) :
  NoDup (listdir d) -> NoDup (listdir (write_file d f t c)).
Proof.
  induction d as [|e d IH]; intro Hn; simpl.
  - constructor; [intros [] | constructor].
  - simpl in Hn. inversion Hn as [|? ? Hx Hd]; subst.
    destruct (String.eqb (name e) f) eqn:E; simpl.
    + apply String.eqb_eq in E. rewrite <- E. constructor; assumption.
    + apply String.eqb_neq in E. constructor.
      * intro H. apply write_file_names in H. destruct H as [H | H]; [auto | congruence].
      * apply IH. exact Hd.
Qed.

Lemma write_file_keeps (d : directory) (f : string) (t : Z) (c : content) (e : entry) :
  In e d -> name e <> f -> In e (write_file d f t c).
Proof.
  intros He Hf. induction d as [|x d IH]; simpl.
  - destruct He.
  - destruct He as [-> | He].
    + replace (String.eqb (name e) f) with false
        by (symmetry; apply String.eqb_neq; exact Hf).
      left. reflexivity.
    + destruct (String.eqb (name x) f); [right; exact He | right; apply IH; exact He].
Qed.

Lemma make_dir_NoDup (d : directory) (f : string) (t : Z) (c : content) :
  find_entry d f = None -> NoDup (listdir d) -> NoDup (listdir (make_dir d f t c)).
Proof.
  intros Hf Hn. apply find_entry_none in Hf.
  unfold make_dir, listdir. rewrite map_app. simpl.
  apply NoDup_app; [exact Hn | constructor; [intros [] | constructor] |].
  intros a Ha [<- | []]. apply Hf. exact Ha.
Qed.

Lemma remove_all_NoDup (d : directory) (fs : list string) :
  NoDup (listdir d) -> NoDup (listdir (remove_all d fs)).
Proof.
  intro H. rewrite listdir_remove_all. apply NoDup_filter. exact H.
Qed.

Lemma remove_all_incl (d : directory) (fs : list string) (e : entry) :
  In e (remove_all d fs) <-> In e d /\ ~ In (name e) fs.
Proof.
  unfold remove_all. rewrite filter_In, negb_true_iff, named_in_false. reflexivity.
Qed.

Lemma endswith_zip (s : string) : endswith (s +++ ".zip") ".zip" = true.
Proof.
  unfold endswith. rewrite length_append.
  apply andb_true_iff. split; [apply Nat.leb_le; lia|].
  replace (String.length s + String.length ".zip" - String.length ".zip")%nat
    with (String.length s) by lia.
  rewrite substring_after. apply String.eqb_refl.
Qed.

Lemma swept_clean (faults : string -> bool) (olds : list string) :
  forall f, In f (fst (swept faults olds)) -> faults f = false.
Proof.
  induction olds as [|a olds IH]; intros f H; simpl in H.
  - destruct H.
  - destruct (faults a) eqn:Ea; simpl in H; [destruct H|].
    destruct H as [<- | H]; [exact Ea | apply IH; exact H].
Qed.

(** What [cleanup_backups] does in every case: it removes some of the
    excess artifacts, logs each of them, and may end with an exception. *)
Lemma cleanup_backups_shape (h : BackupHandler) (d : directory)
    (lg : list string) (faults : string -> bool) :
  exists removed r,
    cleanup_backups h d lg faults = (remove_all d removed, lg ++ cleanup_lines removed, r)
    /\ (forall f, In f removed ->
          In f (skipn (Z.to_nat (buffer_size h)) (backup_items d)) /\ faults f = false).
Proof.
  destruct (Z.leb_spec (buffer_size h) 0) as [HN | HN].
  - exists [], None. rewrite cleanup_backups_unlimited by exact HN.
    rewrite remove_all_nil, app_nil_r. split; [reflexivity | intros f []].
  - exists (fst (swept faults (skipn (Z.to_nat (buffer_size h)) (backup_items d)))),
           (snd (swept faults (skipn (Z.to_nat (buffer_size h)) (backup_items d)))).
    split; [apply cleanup_backups_swept; exact HN|].
    intros f Hf. split; [apply (swept_incl _ _ _ Hf) | apply (swept_clean _ _ _ Hf)].
Qed.

(** A regular file that is no archive is not taken for a backup. *)
Lemma plain_file_no_backup (d : directory) (e : entry) :
  NoDup (listdir d) -> In e d ->
  is_dir e = false -> endswith (name e) ".zip" = false ->
  is_backup d (name e) = false.
Proof.
  intros Hn He Hd Hz. unfold is_backup, isdir.
  rewrite Hz, (find_entry_unique d e Hn He). exact Hd.
Qed.

Section CycleKeeps.

Variables (h : BackupHandler) (d : directory) (lg : list string) (env : cycle_env).
Hypothesis unique : NoDup (listdir d).

(** The write keeps the names unique, leaves plain files alone and only
    appends to the log. *)
Lemma write_snapshot_keeps :
  NoDup (listdir (fst (fst (write_snapshot h d lg env))))
  /\ (forall e, In e d -> is_dir e = false -> endswith (name e) ".zip" = false ->
        In e (fst (fst (write_snapshot h d lg env))))
  /\ (exists rest, snd (fst (write_snapshot h d lg env)) = lg ++ rest).
Proof.
  assert (Hnil : exists rest, lg = lg ++ rest) by (exists []; rewrite app_nil_r; reflexivity).
  assert (Hzip : forall e, endswith (name e) ".zip" = false ->
                   name e <> backup_name h env +++ ".zip").
  { intros e He Heq. rewrite Heq, endswith_zip in He. discriminate. }
  unfold write_snapshot, write_zip, copy_tree.
  destruct (use_zip h).
  - destruct (isdir d _); [simpl; auto|].
    destruct (outcome env) as [|er [c|]]; simpl.
    + split; [apply write_file_NoDup; exact unique|].
      split; [|unfold log_message; eauto].
      intros e He _ Hz. apply write_file_keeps; auto.
    + split; [apply write_file_NoDup; exact unique|].
      split; [|exact Hnil].
      intros e He _ Hz. apply write_file_keeps; auto.
    + auto.
  - destruct (find_entry d (backup_name h env)) eqn:Hf; [simpl; auto|].
    destruct (outcome env) as [|er [c|]]; simpl.
    + split; [apply make_dir_NoDup; assumption|].
      split; [|unfold log_message; eauto].
      intros e He _ _. unfold make_dir. apply in_or_app. left. exact He.
    + split; [apply make_dir_NoDup; assumption|].
      split; [|exact Hnil].
      intros e He _ _. unfold make_dir. apply in_or_app. left. exact He.
    + auto.
Qed.

(** So does the whole cycle. *)
Lemma create_backup_keeps :
  NoDup (listdir (snd (fst (fst (create_backup h d lg env)))))
  /\ (forall e, In e d -> is_dir e = false -> endswith (name e) ".zip" = false ->
        In e (snd (fst (fst (create_backup h d lg env)))))
  /\ (exists rest, snd (fst (create_backup h d lg env)) = lg ++ rest).
Proof.
  destruct write_snapshot_keeps as (Hn & Hk & [rest Hl]).
  unfold create_backup.
  destruct (write_snapshot h d lg env) as [[d1 lg1] [e|]]; simpl in Hn, Hk, Hl.
  - simpl. split; [exact Hn | split; [exact Hk | exists rest; exact Hl]].
  - destruct (cleanup_backups_shape (set_last_backup_time h (t_done env)) d1 lg1
                (del_fails env)) as (removed & r & E & Hrem).
    rewrite E. simpl. split; [|split].
    + apply remove_all_NoDup. exact Hn.
    + intros e He Hd Hz. apply remove_all_incl. split; [apply Hk; assumption|].
      intro Hin. apply Hrem in Hin. destruct Hin as [Hin _].
      apply in_skipn, backup_items_In in Hin. destruct Hin as [_ Hin].
      rewrite (plain_file_no_backup d1 e Hn (Hk e He Hd Hz) Hd Hz) in Hin.
      discriminate.
    + exists (rest ++ cleanup_lines removed). rewrite Hl, app_assoc. reflexivity.
Qed.

End CycleKeeps.

Lemma step_keeps (w : world) (o : op) :
  NoDup (listdir (dir w)) ->
  NoDup (listdir (dir (fst (step w o))))
  /\ (forall e, In e (dir w) -> is_dir e = false -> endswith (name e) ".zip" = false ->
        In e (dir (fst (step w o))))
  /\ (exists rest, log (fst (step w o)) = log w ++ rest).
Proof.
  intro Hn.
  assert (Hsame : NoDup (listdir (dir w))
            /\ (forall e, In e (dir w) -> is_dir e = false ->
                  endswith (name e) ".zip" = false -> In e (dir w))
            /\ (exists rest, log w = log w ++ rest)).
  { split; [exact Hn | split; [auto | exists []; rewrite app_nil_r; reflexivity]]. }
  destruct o as [ev now|now env|]; simpl; try exact Hsame.
  unfold poll. destruct (should_backup (handler w) now); [|exact Hsame].
  pose proof (create_backup_keeps (handler w) (dir w) (log w) env Hn) as Hk.
  destruct (create_backup (handler w) (dir w) (log w) env) as [[[h' d'] lg'] [e|]];
    simpl in *; exact Hk.
Qed.

Lemma start_loop_keeps (ops : list op) :
  forall w,
    NoDup (listdir (dir w)) ->
    NoDup (listdir (dir (fst (start_loop w ops))))
    /\ (forall e, In e (dir w) -> is_dir e = false -> endswith (name e) ".zip" = false ->
          In e (dir (fst (start_loop w ops))))
    /\ (exists rest, log (fst (start_loop w ops)) = log w ++ rest).
Proof.
  induction ops as [|o ops IH]; intros w Hn.
  - simpl. split; [exact Hn | split; [auto | exists []; rewrite app_nil_r; reflexivity]].
  - destruct (step_keeps w o Hn) as (Hn1 & Hk1 & [r1 Hl1]).
    simpl. destruct (step w o) as [w1 st]. simpl in Hn1, Hk1, Hl1.
    destruct st; simpl; try (split; [exact Hn1 | split; [exact Hk1 | exists r1; exact Hl1]]).
    destruct (IH w1 Hn1) as (Hn2 & Hk2 & [r2 Hl2]).
    split; [exact Hn2 | split].
    + intros e He Hd Hz. apply Hk2; auto.
    + exists (r1 ++ r2). rewrite Hl2, Hl1, app_assoc. reflexivity.
Qed.

(** The log only grows, whatever the directory looks like. *)
Lemma create_backup_log (h : BackupHandler) (d : directory) (lg : list string)
    (env : cycle_env) :
  exists rest, snd (fst (create_backup h d lg env)) = lg ++ rest.
Proof.
  assert (Hw : exists rest, snd (fst (write_snapshot h d lg env)) = lg ++ rest).
  { unfold write_snapshot, write_zip, copy_tree, log_message.
    destruct (use_zip h).
    - destruct (isdir d _); [exists []; simpl; rewrite app_nil_r; reflexivity|].
      destruct (outcome env) as [|er [c|]]; simpl; eauto;
        exists []; rewrite app_nil_r; reflexivity.
    - destruct (find_entry d _); [exists []; simpl; rewrite app_nil_r; reflexivity|].
      destruct (outcome env) as [|er [c|]]; simpl; eauto;
        exists []; rewrite app_nil_r; reflexivity. }
  destruct Hw as [rest Hw]. unfold create_backup.
  destruct (write_snapshot h d lg env) as [[d1 lg1] [e|]]; simpl in Hw.
  - simpl. exists rest. exact Hw.
  - destruct (cleanup_backups_shape (set_last_backup_time h (t_done env)) d1 lg1
                (del_fails env)) as (removed & r & E & _).
    rewrite E. simpl. exists (rest ++ cleanup_lines removed).
    rewrite Hw, app_assoc. reflexivity.
Qed.

(** X5. The log is append-only: whatever happens in a run of the loop, the
    lines that were in the log are still there, in front of the new ones. *)
Theorem log_append_only (ops : list op) :
  forall w, exists rest, log (fst (start_loop w ops)) = log w ++ rest.
Proof.
  induction ops as [|o ops IH]; intro w.
  - exists []. simpl. rewrite app_nil_r. reflexivity.
  - assert (Hstep : exists r1, log (fst (step w o)) = log w ++ r1).
    { destruct o as [ev now|now env|]; simpl;
        try (exists []; rewrite app_nil_r; reflexivity).
      unfold poll. destruct (should_backup (handler w) now);
        [|exists []; rewrite app_nil_r; reflexivity].
      destruct (create_backup_log (handler w) (dir w) (log w) env) as [r1 H1].
      destruct (create_backup (handler w) (dir w) (log w) env) as [[[h' d'] lg'] [e|]];
        simpl in *; exists r1; exact H1. }
    destruct Hstep as [r1 H1]. simpl.
    destruct (step w o) as [w1 st]. simpl in H1.
    destruct st; simpl; try (exists r1; exact H1).
    destruct (IH w1) as [r2 H2]. exists (r1 ++ r2).
    rewrite H2, H1, app_assoc. reflexivity.
Qed.

(** X6. Along any run of the loop the names in the backup directory stay
    unique, and a regular file there whose name does not end in [.zip] is
    never removed or overwritten, neither by a backup cycle nor by the
    sweep. *)
Theorem plain_files_survive (w : world) (ops : list op) (e : entry) :
  NoDup (listdir (dir w)) ->
  In e (dir w) ->
  is_dir e = false ->
  endswith (name e) ".zip" = false ->
  In e (dir (fst (start_loop w ops)))
  /\ NoDup (listdir (dir (fst (start_loop w ops)))).
Proof.
  intros Hn He Hd Hz.
  destruct (start_loop_keeps ops w Hn) as (Hn' & Hk & _).
  split; [apply Hk; assumption | exact Hn'].
Qed.

Lemma plain_files_survive_witness :
  let w := mkWorld (set_last_change_time (keep 1 true) 3) [readme; zip_entry "a.zip" 2] [] in
  let ops := [Tick 9 (good_cycle "2024-01-01_00-00-09" tree_v1 10);
              FsEvent file_event 20;
              Tick 26 (good_cycle "2024-01-01_00-00-26" tree_v2 27)] in
  NoDup (listdir (dir w)) /\
  In readme (dir w) /\
  is_dir readme = false /\
  endswith (name readme) ".zip" = false /\
  In readme (dir (fst (start_loop w ops))).
Proof.
  intros w ops.
  assert (Hn : NoDup (listdir (dir w))) by distinct_names.
  split; [exact Hn|].
  split; [left; reflexivity|].
  split; [reflexivity|].
  split; [reflexivity|].
  apply (plain_files_survive w ops readme Hn); [left; reflexivity | reflexivity | reflexivity].
Defined.

(** ** More on the retention sweep *)

(** X7. Whatever the retention count and whichever deletions fail,
    [cleanup_backups] only removes.  The names that are gone are those of
    excess artifacts whose deletion did not raise, and one line is logged
    for each of them, in the order of the deletions; every other name is
    still listed; and a child that is not among the excess artifacts, so
    that no deletion was attempted on it, is still there as it was. *)
Theorem cleanup_removals_logged (h : BackupHandler) (d : directory)
    (lg : list string) (faults : string -> bool) :
  let excess := skipn (Z.to_nat (buffer_size h)) (backup_items d) in
  exists removed,
    snd (fst (cleanup_backups h d lg faults)) = lg ++ cleanup_lines removed
    /\ listdir (fst (fst (cleanup_backups h d lg faults)))
       = filter (fun f => negb (named_in removed f)) (listdir d)
    /\ (forall e, ~ In (name e) excess ->
          (In e (fst (fst (cleanup_backups h d lg faults))) <-> In e d))
    /\ (forall f, In f removed ->
          In f (artifacts d) /\ In f excess /\ faults f = false).
Proof.
  intro excess.
  destruct (cleanup_backups_shape h d lg faults) as (removed & r & E & Hrem).
  exists removed. rewrite E. simpl. split; [reflexivity | split; [|split]].
  - apply listdir_remove_all.
  - intros e He. rewrite remove_all_incl. split; [intros [H _]; exact H|].
    intro H. split; [exact H|]. intro Hin. apply He. apply (Hrem _ Hin).
  - intros f Hf. destruct (Hrem f Hf) as [Hs Hok].
    split; [|split; assumption].
    apply (Permutation_in _ (backup_items_perm d)). apply (in_skipn _ _ _ Hs).
Qed.

(** X8. The newest artifacts are safe: with unique names, none of the first
    [buffer_size] artifacts in the order of the sweep is removed, whichever
    deletions fail. *)
Theorem newest_never_removed (h : BackupHandler) (d : directory)
    (lg : list string) (faults : string -> bool) (e : entry) :
  NoDup (listdir d) ->
  In e d ->
  In (name e) (firstn (Z.to_nat (buffer_size h)) (backup_items d)) ->
  In e (fst (fst (cleanup_backups h d lg faults))).
Proof.
  intros Hn He Hf.
  destruct (cleanup_backups_shape h d lg faults) as (removed & r & E & Hrem).
  rewrite E. simpl. apply remove_all_incl. split; [exact He|].
  intro Hin. destruct (Hrem _ Hin) as [Hs _].
  assert (Hi : NoDup (firstn (Z.to_nat (buffer_size h)) (backup_items d)
                      ++ skipn (Z.to_nat (buffer_size h)) (backup_items d))).
  { rewrite firstn_skipn.
    apply (Permutation_NoDup (Permutation_sym (backup_items_perm d))).
    apply artifacts_NoDup. exact Hn. }
  apply (NoDup_app_disjoint _ _ Hi _ Hf Hs).
Qed.

Lemma newest_never_removed_witness :
  let e := zip_entry "w.zip" 40 in
  NoDup (listdir four_zips) /\
  In e four_zips /\
  In (name e) (firstn (Z.to_nat (buffer_size (keep 1 true))) (backup_items four_zips)) /\
  In e (fst (fst (cleanup_backups (keep 1 true) four_zips [] y_is_locked))).
Proof.
  intro e.
  assert (Hn : NoDup (listdir four_zips)) by distinct_names.
  split; [exact Hn|].
  split; [left; reflexivity|].
  split; [left; reflexivity|].
  apply (newest_never_removed (keep 1 true) four_zips [] y_is_locked e Hn);
    left; reflexivity.
Defined.

(** X9. The sweep is idempotent: after a sweep in which no deletion
    failed, a second sweep finds nothing in excess and changes neither the
    directory nor the log, whatever deletions would do. *)
Theorem cleanup_idempotent (h : BackupHandler) (d : directory)
    (lg : list string) (faults faults' : string -> bool) :
  NoDup (listdir d) ->
  (forall f, In f (skipn (Z.to_nat (buffer_size h)) (backup_items d)) -> faults f = false) ->
  let d' := fst (fst (cleanup_backups h d lg faults)) in
  let lg' := snd (fst (cleanup_backups h d lg faults)) in
  cleanup_backups h d' lg' faults' = (d', lg', None).
Proof.
  intros Hn Hok d' lg'.
  destruct (Z.leb_spec (buffer_size h) 0) as [HN | HN].
  - apply cleanup_backups_unlimited. exact HN.
  - assert (E : d' = remove_all d (skipn (Z.to_nat (buffer_size h)) (backup_items d))).
    { unfold d', cleanup_backups.
      destruct (Z.leb_spec (buffer_size h) 0) as [Hle | _]; [lia|].
      rewrite remove_old_all by exact Hok. reflexivity. }
    unfold cleanup_backups.
    destruct (Z.leb_spec (buffer_size h) 0) as [Hle | _]; [lia|].
    assert (Hlen : (List.length (backup_items d') <= Z.to_nat (buffer_size h))%nat).
    { rewrite (Permutation_length (backup_items_perm d')), E.
      rewrite (Permutation_length (artifacts_after_sweep d _ Hn)), length_firstn.
      lia. }
    rewrite (skipn_all2 _ Hlen). reflexivity.
Qed.

Lemma cleanup_idempotent_witness :
  let h := keep 2 true in
  NoDup (listdir four_zips) /\
  (forall f, In f (skipn (Z.to_nat (buffer_size h)) (backup_items four_zips)) ->
     no_faults f = false) /\
  cleanup_backups h (fst (fst (cleanup_backups h four_zips [] no_faults)))
    (snd (fst (cleanup_backups h four_zips [] no_faults))) y_is_locked
  = (fst (fst (cleanup_backups h four_zips [] no_faults)),
     snd (fst (cleanup_backups h four_zips [] no_faults)), None).
Proof.
  intro h.
  assert (Hn : NoDup (listdir four_zips)) by distinct_names.
  split; [exact Hn|].
  split; [reflexivity|].
  apply (cleanup_idempotent h four_zips [] no_faults y_is_locked Hn). reflexivity.
Defined.

(** ** The artifact of a cycle and the sweep that follows *)

Lemma swept_complete (faults : string -> bool) (olds : list string) :
  snd (swept faults olds) = None -> fst (swept faults olds) = olds.
Proof.
  induction olds as [|a olds IH]; simpl; [reflexivity|].
  destruct (faults a); simpl; [discriminate|].
  intro H. rewrite IH by exact H. reflexivity.
Qed.

Lemma write_file_find (d : directory) (f : string) (t : Z) (c : content) :
  find_entry (write_file d f t c) f = Some (mkEntry f false t c).
Proof.
  unfold find_entry. induction d as [|e d IH]; simpl.
  - rewrite String.eqb_refl. reflexivity.
  - destruct (String.eqb (name e) f) eqn:E; simpl.
    + rewrite String.eqb_refl. reflexivity.
    + rewrite E. exact IH.
Qed.

Lemma write_file_find_other (d : directory) (f : string) (t : Z) (c : content) (a : string) :
  a <> f -> find_entry (write_file d f t c) a = find_entry d a.
Proof.
  intro Ha. unfold find_entry. induction d as [|e d IH]; simpl.
  - replace (String.eqb f a) with false; [reflexivity|].
    symmetry. apply String.eqb_neq. congruence.
  - destruct (String.eqb (name e) f) eqn:E; simpl.
    + apply String.eqb_eq in E.
      replace (String.eqb f a) with false
        by (symmetry; apply String.eqb_neq; congruence).
      replace (String.eqb (name e) a) with false
        by (symmetry; apply String.eqb_neq; congruence).
      reflexivity.
    + destruct (String.eqb (name e) a); [reflexivity | exact IH].
Qed.

Lemma find_entry_app (d d2 : directory) (a : string) :
  find_entry (d ++ d2) a
  = match find_entry d a with
    | Some e => Some e
    | None => find_entry d2 a
    end.
Proof.
  unfold find_entry. induction d as [|e d IH]; simpl; [reflexivity|].
  destruct (String.eqb (name e) a); [reflexivity | exact IH].
Qed.

(** The directory after a write that completed: the artifact is there
    under its name with the snapshot as its data, the other names are the
    ones from before, and they read as before. *)
Lemma written_dir (h : BackupHandler) (d : directory) (lg : list string)
    (env : cycle_env) (d1 : directory) (lg1 : list string) :
  write_snapshot h d lg env = (d1, lg1, None) ->
  let f := artifact_name h env in
  find_entry d1 f = Some (mkEntry f (negb (use_zip h)) (art_mtime env) (snapshot env))
  /\ (forall a, a <> f -> find_entry d1 a = find_entry d a)
  /\ (forall a, In a (listdir d1) <-> In a (listdir d) \/ a = f).
Proof.
  unfold write_snapshot, write_zip, copy_tree, artifact_name.
  destruct (use_zip h); simpl negb.
  - destruct (isdir d _); [discriminate|].
    destruct (outcome env) as [|er [c|]]; try discriminate.
    intro H. inversion H; subst. cbv zeta. split; [|split].
    + apply write_file_find.
    + intros a Ha. apply write_file_find_other. exact Ha.
    + intro a. apply write_file_names.
  - destruct (find_entry d (backup_name h env)) eqn:Hf; [discriminate|].
    destruct (outcome env) as [|er [c|]]; try discriminate.
    intro H. inversion H; subst. cbv zeta. unfold make_dir. split; [|split].
    + rewrite find_entry_app, Hf. simpl. unfold find_entry. simpl.
      rewrite String.eqb_refl. reflexivity.
    + intros a Ha. rewrite find_entry_app.
      destruct (find_entry d a); [reflexivity|].
      unfold find_entry. simpl.
      replace (String.eqb (backup_name h env) a) with false; [reflexivity|].
      symmetry. apply String.eqb_neq. congruence.
    + intro a. unfold listdir. rewrite map_app, in_app_iff. simpl.
      intuition.
Qed.

Lemma artifact_name_is_backup (h : BackupHandler) (env : cycle_env) (d1 : directory) :
  find_entry d1 (artifact_name h env)
    = Some (mkEntry (artifact_name h env) (negb (use_zip h)) (art_mtime env) (snapshot env)) ->
  is_backup d1 (artifact_name h env) = true.
Proof.
  intro Hf. unfold is_backup, isdir. rewrite Hf. simpl.
  unfold artifact_name. destruct (use_zip h); simpl.
  - rewrite endswith_zip. reflexivity.
  - apply orb_true_r.
Qed.

(** X10. What a completed write leaves: the artifact can be looked up under
    its name, holds the snapshot, and is among the artifacts the sweep
    enumerates; one line is logged for it. *)
Theorem written_artifact_listed (h : BackupHandler) (d : directory)
    (lg : list string) (env : cycle_env) (d1 : directory) (lg1 : list string) :
  write_snapshot h d lg env = (d1, lg1, None) ->
  let f := artifact_name h env in
  find_entry d1 f = Some (mkEntry f (negb (use_zip h)) (art_mtime env) (snapshot env))
  /\ In f (artifacts d1)
  /\ In f (backup_items d1)
  /\ exists line, lg1 = lg ++ [line].
Proof.
  intros Hw f.
  destruct (written_dir h d lg env d1 lg1 Hw) as (Hf & _ & Hnames).
  fold f in Hf, Hnames.
  assert (Ha : In f (artifacts d1)).
  { unfold artifacts. apply filter_In. split.
    - apply Hnames. right. reflexivity.
    - apply artifact_name_is_backup. exact Hf. }
  split; [exact Hf | split; [exact Ha | split]].
  - apply (Permutation_in _ (Permutation_sym (backup_items_perm d1)) Ha).
  - revert Hw. unfold write_snapshot, write_zip, copy_tree, log_message.
    destruct (use_zip h).
    + destruct (isdir d _); [discriminate|].
      destruct (outcome env) as [|er [c|]]; try discriminate.
      intro H. inversion H. eauto.
    + destruct (find_entry d _); [discriminate|].
      destruct (outcome env) as [|er [c|]]; try discriminate.
      intro H. inversion H. eauto.
Qed.

Lemma written_artifact_listed_witness :
  let env := good_cycle "2024-01-01_00-00-09" tree_v2 10 in
  let d1 := [log_file; mkEntry "data_2024-01-01_00-00-09" true 10 tree_v2] in
  let lg1 := ["[BACKUP] Copied folder: /srv/AutoBackups/data_2024-01-01_00-00-09"] in
  write_snapshot copy_handler [log_file] [] env = (d1, lg1, None) /\
  In (artifact_name copy_handler env) (artifacts d1).
Proof.
  intros env d1 lg1.
  split; [reflexivity|].
  apply (written_artifact_listed copy_handler [log_file] [] env d1 lg1). reflexivity.
Defined.

(** X11. A cycle that returns normally leaves at most [buffer_size]
    artifacts in the directory (for a positive [buffer_size] and unique
    names). *)
Theorem completed_cycle_within_limit (h : BackupHandler) (d : directory)
    (lg : list string) (env : cycle_env)
    (h' : BackupHandler) (d' : directory) (lg' : list string) :
  0 < buffer_size h ->
  NoDup (listdir d) ->
  create_backup h d lg env = (h', d', lg', None) ->
  (List.length (artifacts d') <= Z.to_nat (buffer_size h))%nat.
Proof.
  intros HN Hn Hc.
  destruct (write_snapshot_keeps h d lg env Hn) as (Hn1 & _ & _).
  unfold create_backup in Hc.
  destruct (write_snapshot h d lg env) as [[d1 lg1] [e|]]; [discriminate|].
  simpl in Hn1.
  rewrite cleanup_backups_swept in Hc by exact HN. simpl buffer_size in Hc.
  inversion Hc as [[Hh Hd Hl Hr]].
  rewrite (swept_complete _ _ Hr).
  rewrite (Permutation_length (artifacts_after_sweep d1 _ Hn1)), length_firstn.
  lia.
Qed.

Lemma completed_cycle_within_limit_witness :
  let h := keep 2 true in
  let env := good_cycle "2024-01-01_00-00-50" tree_v2 50 in
  let r := create_backup h four_zips [] env in
  0 < buffer_size h /\
  NoDup (listdir four_zips) /\
  snd r = None /\
  (List.length (artifacts (snd (fst (fst r)))) <= Z.to_nat (buffer_size h))%nat.
Proof.
  intros h env r.
  assert (Hn : NoDup (listdir four_zips)) by distinct_names.
  split; [simpl; lia|].
  split; [exact Hn|].
  split; [reflexivity|].
  apply (completed_cycle_within_limit h four_zips [] env
           (fst (fst (fst r))) (snd (fst (fst r))) (snd (fst r)));
    [simpl; lia | exact Hn | reflexivity].
Defined.

Section SortedFront.

Context {A : Type}.
Variable key : A -> Z.
Variables (l : list A) (n : nat).
Hypothesis unique : NoDup l.
Hypothesis sorted : StronglySorted (key_ge key) l.

Lemma front_back_disjoint (x : A) :
  In x (firstn n l) -> ~ In x (skipn n l).
Proof.
  apply NoDup_app_disjoint. rewrite firstn_skipn. exact unique.
Qed.

Lemma back_le_front (a b : A) :
  In a (firstn n l) -> In b (skipn n l) -> key b <= key a.
Proof.
  apply (sorted_split key). rewrite firstn_skipn. exact sorted.
Qed.

Lemma front_or_back (x : A) :
  In x l -> In x (firstn n l) \/ In x (skipn n l).
Proof.
  intro H. rewrite <- (firstn_skipn n l) in H. apply in_app_or. exact H.
Qed.

(** The strictly newest element is in front as soon as anything is. *)
Lemma newest_in_front (x : A) :
  (0 < n)%nat -> In x l ->
  (forall a, In a l -> a <> x -> key a < key x) ->
  In x (firstn n l).
Proof.
  intros Hpos Hx Hmax.
  destruct (front_or_back x Hx) as [H | H]; [exact H|].
  exfalso.
  assert (Hhead : exists a, In a (firstn n l)).
  { destruct l as [|a l0]; [destruct Hx|].
    destruct n as [|n0]; [lia|]. exists a. left. reflexivity. }
  destruct Hhead as [a Ha].
  assert (Hne : a <> x) by (intros ->; apply (front_back_disjoint x Ha H)).
  pose proof (back_le_front a x Ha H) as Hle.
  assert (Hal : In a l).
  { rewrite <- (firstn_skipn n l). apply in_or_app. left. exact Ha. }
  specialize (Hmax a Hal Hne). lia.
Qed.

(** An element with [n] strictly newer ones is behind the first [n]. *)
Lemma dominated_in_back (x : A) (newer : list A) :
  In x l -> NoDup newer -> (n <= List.length newer)%nat ->
  (forall a, In a newer -> In a l /\ key x < key a) ->
  In x (skipn n l).
Proof.
  intros Hx Hnd Hlen Hnewer.
  destruct (front_or_back x Hx) as [H | H]; [|exact H].
  exfalso.
  assert (Hincl : incl (x :: newer) (firstn n l)).
  { intros a [<- | Ha]; [exact H|].
    destruct (Hnewer a Ha) as [Hal Hk].
    destruct (front_or_back a Hal) as [Hf | Hb]; [exact Hf|].
    pose proof (back_le_front x a H Hb). lia. }
  assert (Hnd' : NoDup (x :: newer)).
  { constructor; [|exact Hnd]. intro Hin. destruct (Hnewer x Hin) as [_ Hk]. lia. }
  pose proof (NoDup_incl_length Hnd' Hincl) as Hl.
  rewrite length_firstn in Hl. simpl in Hl. lia.
Qed.

End SortedFront.

Section AfterWrite.

Variables (h : BackupHandler) (d : directory) (lg : list string) (env : cycle_env).
Variables (d1 : directory) (lg1 : list string).
Hypothesis unique : NoDup (listdir d).
Hypothesis written : write_snapshot h d lg env = (d1, lg1, None).

Lemma written_unique : NoDup (listdir d1).
Proof.
  pose proof (write_snapshot_keeps h d lg env unique) as (Hn & _).
  rewrite written in Hn. exact Hn.
Qed.

Lemma written_mtime : getmtime d1 (artifact_name h env) = art_mtime env.
Proof.
  destruct (written_dir h d lg env d1 lg1 written) as (Hf & _).
  unfold getmtime. rewrite Hf. reflexivity.
Qed.

(** The other artifacts are the ones from before, with their times. *)
Lemma written_others (a : string) :
  a <> (artifact_name h env) ->
  (In a (artifacts d1) <-> In a (artifacts d)) /\ getmtime d1 a = getmtime d a.
Proof.
  intro Ha.
  destruct (written_dir h d lg env d1 lg1 written) as (_ & Hsame & Hnames).
  split.
  - unfold artifacts. rewrite !filter_In, Hnames.
    unfold is_backup, isdir. rewrite (Hsame a Ha). intuition.
  - unfold getmtime. rewrite (Hsame a Ha). reflexivity.
Qed.

Lemma written_in_items : In (artifact_name h env) (backup_items d1).
Proof.
  destruct (written_dir h d lg env d1 lg1 written) as (Hf & _ & Hnames).
  apply backup_items_In. split.
  - apply Hnames. right. reflexivity.
  - apply artifact_name_is_backup. exact Hf.
Qed.

Lemma items_unique : NoDup (backup_items d1).
Proof.
  apply (Permutation_NoDup (Permutation_sym (backup_items_perm d1))).
  apply artifacts_NoDup. exact written_unique.
Qed.

End AfterWrite.

(** X12. The backup just made is kept when it is the newest: if its
    modification time is later than that of every other artifact, it is
    still in the directory, with the snapshot, when the cycle ends,
    whichever deletions of the sweep fail. *)
Theorem newest_backup_kept (h : BackupHandler) (d : directory) (lg : list string)
    (env : cycle_env) (d1 : directory) (lg1 : list string) :
  0 < buffer_size h ->
  NoDup (listdir d) ->
  write_snapshot h d lg env = (d1, lg1, None) ->
  (forall a, In a (artifacts d) -> a <> artifact_name h env ->
     getmtime d a < art_mtime env) ->
  In (mkEntry (artifact_name h env) (negb (use_zip h)) (art_mtime env) (snapshot env))
     (snd (fst (fst (create_backup h d lg env)))).
Proof.
  intros HN Hn Hw Hnew.
  set (f := artifact_name h env).
  set (n := Z.to_nat (buffer_size h)).
  pose proof (written_unique h d lg env d1 lg1 Hn Hw) as Hn1.
  pose proof (items_unique h d lg env d1 lg1 Hn Hw) as Hni.
  assert (Hfront : In f (firstn n (backup_items d1))).
  { apply (newest_in_front (getmtime d1)).
    - exact Hni.
    - apply sorted_desc_sorted.
    - unfold n. lia.
    - apply (written_in_items h d lg env d1 lg1 Hw).
    - intros a Ha Hne.
      destruct (written_others h d lg env d1 lg1 Hw a Hne) as [Hiff Hm].
      unfold f. rewrite Hm, (written_mtime h d lg env d1 lg1 Hw).
      apply Hnew; [|exact Hne].
      apply Hiff. apply (Permutation_in _ (backup_items_perm d1) Ha). }
  destruct (written_dir h d lg env d1 lg1 Hw) as (Hf & _).
  unfold create_backup. rewrite Hw.
  destruct (cleanup_backups_shape (set_last_backup_time h (t_done env)) d1 lg1
              (del_fails env)) as (removed & r & E & Hrem).
  rewrite E. simpl. apply remove_all_incl. split.
  - apply find_some in Hf. destruct Hf as [Hin _]. exact Hin.
  - simpl. intro Hin. destruct (Hrem _ Hin) as [Hs _].
    apply (front_back_disjoint (backup_items d1) n Hni f Hfront Hs).
Qed.

Lemma newest_backup_kept_witness :
  let h := keep 2 true in
  let env := mkEnv "2024-01-01_00-00-50" tree_v2 WriteOk 50 51 y_is_locked in
  let d1 := four_zips ++ [mkEntry "data_2024-01-01_00-00-50.zip" false 50 tree_v2] in
  let lg1 := ["[BACKUP] Created ZIP: /srv/AutoBackups/data_2024-01-01_00-00-50.zip"] in
  0 < buffer_size h /\
  NoDup (listdir four_zips) /\
  write_snapshot h four_zips [] env = (d1, lg1, None) /\
  In (mkEntry "data_2024-01-01_00-00-50.zip" false 50 tree_v2)
     (snd (fst (fst (create_backup h four_zips [] env)))).
Proof.
  intros h env d1 lg1.
  assert (Hn : NoDup (listdir four_zips)) by distinct_names.
  split; [simpl; lia|].
  split; [exact Hn|].
  split; [reflexivity|].
  apply (newest_backup_kept h four_zips [] env d1 lg1);
    [simpl; lia | exact Hn | reflexivity |].
  intros a Ha _. simpl in Ha.
  destruct Ha as [<- | [<- | [<- | [<- | []]]]]; reflexivity.
Defined.

(** X13. The backup just made is removed again when it is not among the
    newest: if at least [buffer_size] other artifacts have a strictly later
    modification time than the new artifact gets, and no deletion fails,
    the cycle returns normally and the new artifact is gone. *)
Theorem stale_backup_removed (h : BackupHandler) (d : directory) (lg : list string)
    (env : cycle_env) (d1 : directory) (lg1 : list string) (newer : list string) :
  0 < buffer_size h ->
  write_snapshot h d lg env = (d1, lg1, None) ->
  NoDup newer ->
  (Z.to_nat (buffer_size h) <= List.length newer)%nat ->
  (forall a, In a newer ->
     In a (artifacts d) /\ a <> artifact_name h env /\ art_mtime env < getmtime d a) ->
  (forall g, del_fails env g = false) ->
  snd (create_backup h d lg env) = None
  /\ ~ In (artifact_name h env) (listdir (snd (fst (fst (create_backup h d lg env))))).
Proof.
  intros HN Hw Hnd Hlen Hnewer Hok.
  set (f := artifact_name h env).
  set (n := Z.to_nat (buffer_size h)).
  assert (Hback : In f (skipn n (backup_items d1))).
  { apply (dominated_in_back (getmtime d1) _ _ (sorted_desc_sorted _ _) f newer).
    - apply (written_in_items h d lg env d1 lg1 Hw).
    - exact Hnd.
    - exact Hlen.
    - intros a Ha. destruct (Hnewer a Ha) as (Hart & Hne & Hlt).
      destruct (written_others h d lg env d1 lg1 Hw a Hne) as [Hiff Hm].
      unfold f. rewrite Hm, (written_mtime h d lg env d1 lg1 Hw). split; [|exact Hlt].
      apply (Permutation_in _ (Permutation_sym (backup_items_perm d1))).
      apply Hiff. exact Hart. }
  unfold create_backup. rewrite Hw.
  unfold cleanup_backups. simpl buffer_size.
  destruct (Z.leb_spec (buffer_size h) 0) as [Hle | _]; [lia|].
  rewrite remove_old_all by (intros g _; apply Hok).
  simpl. split; [reflexivity|].
  rewrite listdir_remove_all, filter_In. intros [_ Hq].
  apply negb_true_iff, named_in_false in Hq. apply Hq. exact Hback.
Qed.

Lemma stale_backup_removed_witness :
  let h := keep 2 false in
  let env := mkEnv "2024-01-01_00-00-50" tree_v2 WriteOk 15 51 no_faults in
  let d1 := four_zips ++ [mkEntry "data_2024-01-01_00-00-50" true 15 tree_v2] in
  let lg1 := ["[BACKUP] Copied folder: /srv/AutoBackups/data_2024-01-01_00-00-50"] in
  0 < buffer_size h /\
  write_snapshot h four_zips [] env = (d1, lg1, None) /\
  snd (create_backup h four_zips [] env) = None /\
  ~ In (artifact_name h env) (listdir (snd (fst (fst (create_backup h four_zips [] env))))).
Proof.
  intros h env d1 lg1.
  split; [simpl; lia|].
  split; [reflexivity|].
  apply (stale_backup_removed h four_zips [] env d1 lg1 ["w.zip"; "x.zip"]).
  - simpl. lia.
  - reflexivity.
  - distinct_names.
  - simpl. lia.
  - intros a [<- | [<- | []]]; (split; [simpl; auto | split; [discriminate | reflexivity]]).
  - reflexivity.
Defined.

(** ** Start-up *)

Lemma append_last_inj (p q : string) (c c' : ascii) :
  p +++ String c EmptyString = q +++ String c' EmptyString -> c = c'.
Proof.
  revert q. induction p as [|a p IH]; intros [|b q] H; simpl in H.
  - inversion H. reflexivity.
  - inversion H as [[Ha Hq]]. destruct q; discriminate.
  - inversion H as [[Ha Hp]]. destruct p; discriminate.
  - inversion H as [[Ha Hp]]. apply (IH q Hp).
Qed.

Lemma append_assoc (a b c : string) : (a +++ b) +++ c = a +++ (b +++ c).
Proof.
  induction a as [|x a IH]; simpl; [reflexivity | rewrite IH; reflexivity].
Qed.

Lemma substring_before (p s : string) :
  substring 0 (String.length p) (p +++ s) = p.
Proof.
  induction p as [|c p IH]; simpl.
  - destruct s; reflexivity.
  - rewrite IH. reflexivity.
Qed.

Section NoTrailingSlash.

Variables (body : string) (c : ascii).
Hypothesis not_slash : c <> "/"%char.

Lemma rstrip_keeps : rstrip_slash ((body +++ String c EmptyString) +++ "/") = (body +++ String c EmptyString).
Proof.
  induction body as [|b body' IH]; simpl.
  - replace (Ascii.eqb c "/") with false
      by (symmetry; apply Ascii.eqb_neq; exact not_slash).
    reflexivity.
  - rewrite IH. destruct body'; reflexivity.
Qed.

Lemma not_all_slashes : all_slashes ((body +++ String c EmptyString) +++ "/") = false.
Proof.
  induction body as [|b body' IH]; simpl.
  - replace (Ascii.eqb c "/") with false
      by (symmetry; apply Ascii.eqb_neq; exact not_slash).
    reflexivity.
  - rewrite IH. apply andb_false_r.
Qed.

Lemma no_trailing_slash : endswith (body +++ String c EmptyString) "/" = false.
Proof.
  apply not_true_is_false. intro H. apply endswith_iff in H.
  destruct H as [p Hp]. apply append_last_inj in Hp. contradiction.
Qed.

Lemma dirname_of_child (tail : string) :
  no_slash tail = true -> dirname ((body +++ String c EmptyString) +++ String "/" tail) = (body +++ String c EmptyString).
Proof.
  intro Ht. unfold dirname.
  assert (Hb : basename ((body +++ String c EmptyString) +++ String "/" tail) = tail).
  { unfold basename. rewrite basename_from_slash.
    apply (basename_from_app tail EmptyString Ht). }
  rewrite Hb.
  assert (Hsplit : (body +++ String c EmptyString) +++ String "/" tail = ((body +++ String c EmptyString) +++ "/") +++ tail).
  { rewrite (append_assoc (body +++ String c EmptyString) "/" tail). reflexivity. }
  rewrite Hsplit, length_append.
  replace (String.length ((body +++ String c EmptyString) +++ "/") + String.length tail - String.length tail)%nat
    with (String.length ((body +++ String c EmptyString) +++ "/")) by lia.
  rewrite substring_before, not_all_slashes.
  replace (String.eqb ((body +++ String c EmptyString) +++ "/") "") with false.
  - simpl. apply rstrip_keeps.
  - symmetry. apply String.eqb_neq. destruct body; discriminate.
Qed.

End NoTrailingSlash.

(** X14. Where the backups go by default.  For a source path made of a
    parent that does not end in a slash, a slash and a last component, the
    default backup directory is [AutoBackups] in the parent, and the
    backups are named after the last component.  When the source path is
    written with a trailing slash the last component is empty: the backups
    have names that start with the underscore, and the default backup
    directory lies inside the watched directory. *)
Theorem default_backup_dir (body : string) (c : ascii) (tail : string) :
  c <> "/"%char ->
  no_slash tail = true ->
  let parent := body +++ String c EmptyString in
  choose_backup_dir (parent +++ String "/" tail) None = parent +++ "/AutoBackups"
  /\ choose_backup_dir (parent +++ String "/" tail) (Some "") = parent +++ "/AutoBackups"
  /\ basename (parent +++ String "/" tail) = tail
  /\ choose_backup_dir (parent +++ "/") None = (parent +++ "/") +++ "AutoBackups"
  /\ basename (parent +++ "/") = "".
Proof.
  intros Hc Ht. cbv zeta.
  unfold choose_backup_dir. simpl String.eqb. cbv iota.
  rewrite (dirname_of_child body c Hc tail Ht).
  rewrite (dirname_of_child body c Hc "" eq_refl).
  set (parent := body +++ String c EmptyString).
  assert (Hjoin : join parent "AutoBackups" = parent +++ "/AutoBackups").
  { unfold join. simpl prefix. cbv iota.
    unfold parent. rewrite (no_trailing_slash body c Hc).
    replace (String.eqb (body +++ String c EmptyString) "") with false
      by (symmetry; apply String.eqb_neq; destruct body; discriminate).
    reflexivity. }
  assert (Hbase : forall t, no_slash t = true -> basename (parent +++ String "/" t) = t).
  { intros t H. unfold basename. rewrite basename_from_slash.
    apply (basename_from_app t EmptyString H). }
  rewrite Hjoin.
  split; [reflexivity | split; [reflexivity | split; [apply Hbase; exact Ht | split]]].
  - rewrite (append_assoc parent "/" "AutoBackups"). reflexivity.
  - apply (Hbase "" eq_refl).
Qed.

Lemma default_backup_dir_witness :
  "v"%char <> "/"%char /\
  no_slash "data" = true /\
  choose_backup_dir "/srv/data" None = "/srv/AutoBackups" /\
  choose_backup_dir "/srv/" None = "/srv/AutoBackups".
Proof.
  split; [discriminate|].
  split; [reflexivity|].
  destruct (default_backup_dir "/sr" "v" "data") as (H1 & _ & _ & H4 & _).
  - discriminate.
  - reflexivity.
  - split; [exact H1 | exact H4].
Defined.

Lemma open_log_keeps (hst : host) (d0 d1 : directory) (lg0 : list string) :
  NoDup (listdir d0) ->
  open_log hst d0 = inl (d1, lg0) ->
  NoDup (listdir d1)
  /\ (forall e, In e d0 -> In e d1)
  /\ (exists e, In e d1 /\ name e = log_file_name /\ is_dir e = false)
  /\ (lg0 = old_log hst \/ (lg0 = [] /\ ~ In log_file_name (listdir d0))).
Proof.
  intros Hn. unfold open_log.
  destruct (find_entry d0 log_file_name) as [e|] eqn:Hf.
  - destruct (is_dir e) eqn:Hd; [discriminate|].
    destruct (open_fault hst); [discriminate|].
    intro H. inversion H; subst.
    apply find_some in Hf. destruct Hf as [Hin Hname].
    apply String.eqb_eq in Hname.
    split; [exact Hn | split; [auto | split; [exists e; auto | left; reflexivity]]].
  - destruct (open_fault hst); [discriminate|].
    intro H. inversion H; subst.
    split; [|split; [|split]].
    + apply (make_dir_NoDup d0 log_file_name (t_open hst) [] Hf) in Hn.
      unfold make_dir, listdir in *. rewrite map_app in *. exact Hn.
    + intros e He. apply in_or_app. left. exact He.
    + exists (mkEntry log_file_name false (t_open hst) []).
      split; [apply in_or_app; right; left; reflexivity | split; reflexivity].
    + right. split; [reflexivity | apply find_entry_none; exact Hf].
Qed.

(** X16. Once [start] is past its start-up, and until the first file
    event, nothing is backed up: the handler is the initial one, the
    directory is the one found with the log file in it, and the log holds
    the earlier lines and the four start-up lines. *)
Theorem start_waits_for_change (source_path : string) (backup_path : option string)
    (buffer_size cooldown : Z) (use_zip : bool) (hst : host) (ops : list op)
    (d0 d1 : directory) (lg0 : list string) :
  source_exists hst = true ->
  makedirs hst = inl d0 ->
  open_log hst d0 = inl (d1, lg0) ->
  forallb no_file_event ops = true ->
  let h := init source_path (choose_backup_dir source_path backup_path)
             buffer_size cooldown use_zip in
  exists st,
    start source_path backup_path buffer_size cooldown use_zip hst ops
    = Started (mkWorld h d1 (banner h lg0)) st
    /\ forall e, st <> Raised e.
Proof.
  intros Hs Hm Ho Hops h.
  unfold start. rewrite Hs, Hm, Ho. simpl negb. cbv iota. fold h.
  pose proof (start_loop_no_file_event ops (mkWorld h d1 (banner h lg0))) as Hrun.
  assert (Hst : forall ops' w, forallb no_file_event ops' = true ->
            last_change_time (handler w) <= last_backup_time (handler w) ->
            forall e, snd (start_loop w ops') <> Raised e).
  { induction ops' as [|o ops' IH]; intros w Hall Hq e; simpl; [discriminate|].
    simpl in Hall. apply andb_true_iff in Hall. destruct Hall as [Ho' Hall].
    destruct o as [ev now|now env|]; simpl.
    - apply IH; [exact Hall|]. simpl. unfold on_any_event.
      simpl in Ho'. rewrite Ho'. exact Hq.
    - unfold poll.
      replace (should_backup (handler w) now) with false.
      + apply IH; assumption.
      + symmetry. apply not_true_is_false. rewrite should_backup_spec. lia.
    - discriminate. }
  assert (Hw : fst (start_loop (mkWorld h d1 (banner h lg0)) ops)
               = mkWorld h d1 (banner h lg0))
    by (apply Hrun; [simpl; lia | exact Hops]).
  assert (Hne : forall e, snd (start_loop (mkWorld h d1 (banner h lg0)) ops) <> Raised e)
    by (intro e; apply Hst; [exact Hops | simpl; lia]).
  destruct (start_loop (mkWorld h d1 (banner h lg0)) ops) as [w st].
  simpl in Hw, Hne. subst w. exists st.
  split; [reflexivity | exact Hne].
Qed.

Lemma start_waits_for_change_witness :
  let ops := [Tick 2 (good_cycle "2024-01-01_00-00-02" tree_v1 2);
              FsEvent directory_event 3;
              Tick 9 (good_cycle "2024-01-01_00-00-09" tree_v1 9)] in
  source_exists clean_host = true /\
  makedirs clean_host = inl [] /\
  open_log clean_host [] = inl ([mkEntry "backup_log.txt" false 1 []], []) /\
  forallb no_file_event ops = true /\
  exists st,
    start "/srv/data" None 5 5 false clean_host ops
    = Started (mkWorld (init "/srv/data" "/srv/AutoBackups" 5 5 false)
                 [mkEntry "backup_log.txt" false 1 []]
                 ["[INFO] Watching source: /srv/data";
                  "[INFO] Backups stored in: /srv/AutoBackups";
                  "[INFO] Cooldown=5s, Buffer=5, ZIP=False";
                  "------------------------------------------------------------"]) st.
Proof.
  intro ops.
  split; [reflexivity|].
  split; [reflexivity|].
  split; [reflexivity|].
  split; [reflexivity|].
  destruct (start_waits_for_change "/srv/data" None 5 5 false clean_host ops
              [] [mkEntry "backup_log.txt" false 1 []] [])
    as (st & Hst & _); try reflexivity.
  exists st. exact Hst.
Defined.

(** X17. A run started by [start] never loses its log file nor the lines
    that were in it: whatever happens in the loop, [backup_log.txt] is
    still a regular file of the backup directory, every plain file found
    there at start-up is still there, and the log begins with the earlier
    lines followed by the four start-up lines. *)
Theorem start_keeps_log (source_path : string) (backup_path : option string)
    (buffer_size cooldown : Z) (use_zip : bool) (hst : host) (ops : list op)
    (d0 d1 : directory) (lg0 : list string) :
  source_exists hst = true ->
  makedirs hst = inl d0 ->
  NoDup (listdir d0) ->
  open_log hst d0 = inl (d1, lg0) ->
  let h := init source_path (choose_backup_dir source_path backup_path)
             buffer_size cooldown use_zip in
  exists w st rest,
    start source_path backup_path buffer_size cooldown use_zip hst ops = Started w st
    /\ log w = banner h lg0 ++ rest
    /\ (exists e, In e (dir w) /\ name e = log_file_name /\ is_dir e = false)
    /\ (forall e, In e d0 -> is_dir e = false -> endswith (name e) ".zip" = false ->
          In e (dir w))
    /\ (lg0 = old_log hst \/ (lg0 = [] /\ ~ In log_file_name (listdir d0))).
Proof.
  intros Hs Hm Hn Ho h.
  destruct (open_log_keeps hst d0 d1 lg0 Hn Ho) as (Hn1 & Hin & (e & He & Hname & Hd) & Hlg).
  unfold start. rewrite Hs, Hm, Ho. simpl negb. cbv iota. fold h.
  destruct (start_loop_keeps ops (mkWorld h d1 (banner h lg0)) Hn1) as (_ & Hk & [rest Hrest]).
  destruct (start_loop (mkWorld h d1 (banner h lg0)) ops) as [w st].
  simpl in Hk, Hrest.
  exists w, st, rest.
  split; [reflexivity | split; [exact Hrest | split; [|split; [|exact Hlg]]]].
  - exists e. split; [|split; assumption].
    apply Hk; [exact He | exact Hd |]. rewrite Hname. reflexivity.
  - intros x Hx Hxd Hxz. apply Hk; auto.
Qed.

Lemma start_keeps_log_witness :
  let hst := mkHost true (Folder [log_file; zip_entry "a.zip" 2]) None None ["earlier run"] 1 in
  let ops := [FsEvent file_event 3; Tick 9 (good_cycle "2024-01-01_00-00-09" tree_v1 10)] in
  source_exists hst = true /\
  makedirs hst = inl [log_file; zip_entry "a.zip" 2] /\
  NoDup (listdir [log_file; zip_entry "a.zip" 2]) /\
  open_log hst [log_file; zip_entry "a.zip" 2]
    = inl ([log_file; zip_entry "a.zip" 2], ["earlier run"]) /\
  exists w st rest,
    start "/srv/data" None 1 5 true hst ops = Started w st
    /\ log w = banner (init "/srv/data" "/srv/AutoBackups" 1 5 true) ["earlier run"] ++ rest
    /\ (exists e, In e (dir w) /\ name e = log_file_name /\ is_dir e = false).
Proof.
  intros hst ops.
  assert (Hn : NoDup (listdir [log_file; zip_entry "a.zip" 2])) by distinct_names.
  split; [reflexivity|].
  split; [reflexivity|].
  split; [exact Hn|].
  split; [reflexivity|].
  destruct (start_keeps_log "/srv/data" None 1 5 true hst ops
              [log_file; zip_entry "a.zip" 2] [log_file; zip_entry "a.zip" 2]
              ["earlier run"] eq_refl eq_refl Hn eq_refl)
    as (w & st & rest & H1 & H2 & H3 & _).
  exists w, st, rest. split; [exact H1 | split; [exact H2 | exact H3]].
Defined.

(** ** A sweep that fails *)

(** X18. A deletion that fails in the sweep stops the watcher: the cycle
    has written and logged its artifact and recorded the backup time, the
    sweep has removed and logged some of the excess artifacts, and its
    exception leaves the polling loop, so that nothing that comes later is
    looked at. *)
Theorem sweep_failure_ends_loop (w : world) (now : Z) (env : cycle_env)
    (rest : list op) (d1 d2 : directory) (lg1 lg2 : list string) (e : error) :
  should_backup (handler w) now = true ->
  write_snapshot (handler w) (dir w) (log w) env = (d1, lg1, None) ->
  cleanup_backups (set_last_backup_time (handler w) (t_done env)) d1 lg1 (del_fails env)
    = (d2, lg2, Some e) ->
  start_loop w (Tick now env :: rest)
    = (mkWorld (set_last_backup_time (handler w) (t_done env)) d2 lg2, Raised e)
  /\ (exists line removed,
        lg2 = (log w ++ [line]) ++ cleanup_lines removed /\ d2 = remove_all d1 removed).
Proof.
  intros Hs Hw Hc.
  split.
  - simpl. unfold poll, create_backup. rewrite Hs, Hw, Hc. reflexivity.
  - destruct (cleanup_backups_shape (set_last_backup_time (handler w) (t_done env))
                d1 lg1 (del_fails env)) as (removed & r & E & _).
    rewrite Hc in E. inversion E as [[Hd Hl Hr]].
    assert (Hline : exists line, lg1 = log w ++ [line]).
    { revert Hw. unfold write_snapshot, write_zip, copy_tree, log_message.
      destruct (use_zip (handler w)).
      - destruct (isdir (dir w) _); [discriminate|].
        destruct (outcome env) as [|er [c|]]; try discriminate.
        intro H. inversion H. eauto.
      - destruct (find_entry (dir w) _); [discriminate|].
        destruct (outcome env) as [|er [c|]]; try discriminate.
        intro H. inversion H. eauto. }
    destruct Hline as [line ->]. exists line, removed. split; reflexivity.
Qed.

Lemma sweep_failure_ends_loop_witness :
  let w := mkWorld (set_last_change_time (keep 1 true) 45) four_zips [] in
  let env := mkEnv "2024-01-01_00-00-50" tree_v2 WriteOk 50 51 y_is_locked in
  let rest := [FsEvent file_event 60; Tick 70 (good_cycle "2024-01-01_00-01-10" tree_v2 70)] in
  let d1 := four_zips ++ [mkEntry "data_2024-01-01_00-00-50.zip" false 50 tree_v2] in
  let lg1 := ["[BACKUP] Created ZIP: /srv/AutoBackups/data_2024-01-01_00-00-50.zip"] in
  let d2 := [zip_entry "y.zip" 20; zip_entry "z.zip" 10;
             mkEntry "data_2024-01-01_00-00-50.zip" false 50 tree_v2] in
  let lg2 := lg1 ++ ["[CLEANUP] Removed old backup: w.zip";
                     "[CLEANUP] Removed old backup: x.zip"] in
  should_backup (handler w) 50 = true /\
  write_snapshot (handler w) (dir w) (log w) env = (d1, lg1, None) /\
  cleanup_backups (set_last_backup_time (handler w) (t_done env)) d1 lg1 (del_fails env)
    = (d2, lg2, Some OSError) /\
  start_loop w (Tick 50 env :: rest)
    = (mkWorld (set_last_backup_time (handler w) (t_done env)) d2 lg2, Raised OSError).
Proof.
  intros w env rest d1 lg1 d2 lg2.
  split; [reflexivity|].
  split; [reflexivity|].
  split; [reflexivity|].
  apply (sweep_failure_ends_loop w 50 env rest d1 d2 lg1 lg2 OSError); reflexivity.
Defined.
